(** * YandexImageCrawler: the crawl-and-download pipeline

    A shallow embedding of [safe_crawler.py] (the supervising producer
    [SafeYandexCrawler], the orchestrator [safe_download] and the size
    argument handling of [main]) and of the download loop of
    [yandex_crawler_gui.py] ([YandexCrawlerGUI.download_images]).

    Conventions of the embedding:
    - Python [int] is [Z]; [time.time()] readings are rationals ([Q]);
      text is [string], the bytes of its UTF-8 encoding.  [int()] and
      [str.strip()] are embedded for ASCII text; a statement of which texts
      they accept is made for text whose characters are all below 128.
    - A call the source wraps in [try] has an outcome [Ok]/[Raise] supplied
      by the environment, and so have the calls outside a [try] whose
      exception a statement depends on (the [driver.get] that opens [run],
      the prints of [main]); logging and the driver's [close] are effects on
      the state.
    - Loops run over the list of what the environment does at each
      iteration; a loop that has not left when the list ends is reported as
      still running. *)

From Stdlib Require Import ZArith QArith Lqa Lia Bool List Ascii String.
From Stdlib Require Import DecimalString DecimalPos DecimalZ.
From stdpp Require Import base decidable strings gmap sets.
Import ListNotations.

Open Scope string_scope.
Open Scope Z_scope.

(** ** Python primitives used by the two programs *)

Module Py.

(** Exceptions.  Every class below derives from [Exception]. *)
Inductive exn : Type :=
  | ValueError (msg : string)
  | AttributeError (cls attr : string)
  | OtherException (msg : string).

Inductive result (A : Type) : Type :=
  | Ok (a : A)
  | Raise (e : exn).
Arguments Ok {A} a.
Arguments Raise {A} e.

Definition is_ValueError (e : exn) : bool :=
  match e with ValueError _ => true | _ => false end.

(** [str(e)] of an exception, for the f-strings of the log messages. *)
Definition str_exn (e : exn) : string :=
  match e with
  | ValueError m => m
  | AttributeError cls a =>
      "'" ++ cls ++ "' object has no attribute '" ++ a ++ "'"
  | OtherException m => m
  end.

(** [str(z)] for an integer. *)
Definition str_int (z : Z) : string := NilZero.string_of_int (Z.to_int z).

(** Logging: a record is a level and a message. *)
Inductive level : Type := INFO | ERROR | CRITICAL.
Definition log_record : Type := (level * string)%type.

(** *** [str.split(sep)] for a one-character separator *)
Fixpoint split_on (sep : ascii) (s : string) : list string :=
  match s with
  | EmptyString => [EmptyString]
  | String c r =>
      if Ascii.eqb c sep then EmptyString :: split_on sep r
      else match split_on sep r with
           | f :: fs => String c f :: fs
           | [] => [String c EmptyString]
           end
  end.

(** *** White space

    [str.strip()] takes off the characters for which [str.isspace] holds;
    among the ASCII ones these are the blank, the five from tab to carriage
    return and the four separators 28 to 31.  [int()] skips the first six
    only around the literal of an ASCII string. *)
Definition is_space (c : ascii) : bool :=
  let n := N_of_ascii c in
  (N.eqb n 32 || (N.leb 9 n && N.leb n 13) || (N.leb 28 n && N.leb n 31))%bool.

Definition is_int_space (c : ascii) : bool :=
  let n := N_of_ascii c in
  (N.eqb n 32 || (N.leb 9 n && N.leb n 13))%bool.

Definition is_ascii (c : ascii) : bool := N.ltb (N_of_ascii c) 128.

Definition digit_of (c : ascii) : option Z :=
  let n := N_of_ascii c in
  if (N.leb 48 n && N.leb n 57)%bool then Some (Z.of_N n - 48) else None.

Definition is_digit (c : ascii) : bool :=
  match digit_of c with Some _ => true | None => false end.

(** [p] holds of every character of [s]. *)
Fixpoint all_chars (p : ascii -> bool) (s : string) : bool :=
  match s with
  | EmptyString => true
  | String c r => (p c && all_chars p r)%bool
  end.

Definition not_sep (sep c : ascii) : bool := negb (Ascii.eqb c sep).

(** [s.strip()] *)
Fixpoint lstrip (s : string) : string :=
  match s with
  | EmptyString => EmptyString
  | String c r => if is_space c then lstrip r else s
  end.

Fixpoint rstrip (s : string) : string :=
  match s with
  | EmptyString => EmptyString
  | String c r =>
      match rstrip r with
      | EmptyString => if is_space c then EmptyString else String c EmptyString
      | r' => String c r'
      end
  end.

Definition strip (s : string) : string := rstrip (lstrip s).

(** *** [int(s)] for a string, base 10

    White space before the literal is skipped and a sign may follow it.  The
    digits are then scanned, an underscore being allowed between two of
    them, and counted: more than [sys.get_int_max_str_digits()] of them are
    refused (CPython 3.11 and later, and the security releases before it;
    4300 unless the interpreter is told otherwise).  Only white space may
    follow the digits.  Both refusals are a [ValueError]. *)

Definition int_max_str_digits : Z := 4300.

Fixpoint skip_spaces (s : string) : string :=
  match s with
  | EmptyString => EmptyString
  | String c r => if is_int_space c then skip_spaces r else s
  end.

(** The scan of the digits: the number of digits read after the [n] read
    so far, and what is left at the first character that is neither a
    digit nor an underscore.  [prev] tells whether the previous character was
    a digit; [None] is a misplaced underscore or no digit at all. *)
Fixpoint scan_literal (s : string) (prev : bool) (n : Z)
  : option (Z * string) :=
  match s with
  | EmptyString => if prev then Some (n, s) else None
  | String c r =>
      if is_digit c then scan_literal r true (n + 1)
      else if Ascii.eqb c "_" then
        if prev then scan_literal r false n else None
      else if prev then Some (n, s) else None
  end.

(** The value of the digits scanned, most significant first. *)
Fixpoint literal_value (s : string) (acc : Z) : Z :=
  match s with
  | EmptyString => acc
  | String c r =>
      match digit_of c with
      | Some d => literal_value r (10 * acc + d)
      | None => if Ascii.eqb c "_" then literal_value r acc else acc
      end
  end.


Inductive reading : Type :=
  | Accepted (z : Z)
  | Malformed
  | TooLong (digits : Z).

Definition read_unsigned (body : string) : reading :=
  match scan_literal body false 0 with
  | None => Malformed
  | Some (n, rest) =>
      if int_max_str_digits <? n then TooLong n
      else if all_chars is_int_space rest
      then Accepted (literal_value body 0)
      else Malformed
  end.

Definition negated (r : reading) : reading :=
  match r with
  | Accepted z => Accepted (- z)
  | other => other
  end.

Definition read_int (s : string) : reading :=
  match skip_spaces s with
  | EmptyString => Malformed
  | String c r =>
      if Ascii.eqb c "+" then read_unsigned r
      else if Ascii.eqb c "-" then negated (read_unsigned r)
      else read_unsigned (String c r)
  end.

Definition parse_int (s : string) : option Z :=
  match read_int s with
  | Accepted z => Some z
  | _ => None
  end.

(** The message of the [ValueError] that [int(s)] raises. *)
Definition int_error (s : string) : string :=
  match read_int s with
  | TooLong n =>
      "Exceeds the limit (" ++ str_int int_max_str_digits
      ++ " digits) for integer string conversion: value has " ++ str_int n
      ++ " digits; use sys.set_int_max_str_digits() to increase the limit"
  | _ => "invalid literal for int() with base 10: '" ++ s ++ "'"
  end.

Definition int (s : string) : result Z :=
  match parse_int s with
  | Some z => Ok z
  | None => Raise (ValueError (int_error s))
  end.

(** *** Private-name mangling and attribute lookup *)

Definition starts_with_dunder (s : string) : bool :=
  match s with
  | String "_" (String "_" _) => true
  | _ => false
  end.

Fixpoint ends_with_dunder (s : string) : bool :=
  match s with
  | String "_" (String "_" EmptyString) => true
  | String _ r => ends_with_dunder r
  | EmptyString => false
  end.

Fixpoint drop_underscores (s : string) : string :=
  match s with
  | String "_" r => drop_underscores r
  | _ => s
  end.

(** An identifier [__name] written inside the body of class [cls] stands
    for [_cls__name]; every other identifier stands for itself. *)
Definition mangle (cls name : string) : string :=
  if (starts_with_dunder name && negb (ends_with_dunder name))%bool
  then "_" ++ drop_underscores cls ++ name
  else name.

(** A class: its name and the identifiers its body binds, as written. *)
Record class : Type := {
  cls_name : string;
  cls_body : list string
}.

Definition cls_dict (c : class) : list string :=
  List.map (mangle (cls_name c)) (cls_body c).

Definition in_names (a : string) (l : list string) : bool :=
  existsb (String.eqb a) l.

(** [getattr(obj, a)] for an object with instance attributes [inst] and
    method resolution order [mro]: where the name is found, if at all.  The
    [AttributeError] names the class of the object, the head of [mro]. *)
Inductive owner : Type :=
  | InInstance
  | InClass (c : string).

Fixpoint mro_lookup (a : string) (mro : list class) : option owner :=
  match mro with
  | [] => None
  | c :: rest =>
      if in_names a (cls_dict c) then Some (InClass (cls_name c))
      else mro_lookup a rest
  end.

Definition getattr (inst : list string) (mro : list class) (a : string)
  : result owner :=
  if in_names a inst then Ok InInstance
  else match mro_lookup a mro with
       | Some o => Ok o
       | None =>
           Raise (AttributeError
                    match mro with c :: _ => cls_name c | [] => "object" end
                    a)
       end.

End Py.
Export Py.

(** ** [safe_crawler.main]: the [--size] argument *)

Module SizeArg.

(** [width, height = map(int, parts)]: the two targets are taken from the
    lazy [map]; a third element is asked for to check that the iterator is
    exhausted, which runs [int] on it. *)
Definition unpack2_map_int (parts : list string) : result (Z * Z) :=
  match parts with
  | [] => Raise (ValueError "not enough values to unpack (expected 2, got 0)")
  | a :: rest =>
      match int a with
      | Raise e => Raise e
      | Ok w =>
          match rest with
          | [] => Raise (ValueError "not enough values to unpack (expected 2, got 1)")
          | b :: rest' =>
              match int b with
              | Raise e => Raise e
              | Ok h =>
                  match rest' with
                  | [] => Ok (w, h)
                  | c :: _ =>
                      match int c with
                      | Raise e => Raise e
                      | Ok _ => Raise (ValueError "too many values to unpack (expected 2)")
                      end
                  end
              end
          end
      end
  end.

(** Lines 311-317 of [safe_crawler.py].  The result is the [image_size]
    handed to [safe_download] together with what was logged, or the
    exception that leaves [main]. *)
Definition image_size_of_arg (size : string)
  : result ((Z * Z) * list log_record) :=
  match unpack2_map_int (split_on "x" size) with
  | Ok (width, height) => Ok ((width, height), [])
  | Raise e =>
      if is_ValueError e
      then Ok ((0, 0),
               [(ERROR, "Invalid size format: " ++ size ++ ". Using default 0x0.")])
      else Raise e
  end.






End SizeArg.

(** ** [safe_crawler.py]: the producer [SafeYandexCrawler] *)

Module SafeCrawler.

(** What a producer hands to [load_queue.put]: a link and its declared size. *)
Record work_item : Type := {
  locator : string;
  declared_width : Z;
  declared_height : Z
}.

(** The class [YandexCrawler] comes from the installed package
    [yandex_images_crawler]; the program only fixes its name.  What its body
    binds and which attributes its methods set on [self] are parameters. *)
Record base_class : Type := {
  base_body : list string;
  base_self : list string
}.

Definition YandexCrawler (b : base_class) : class :=
  {| cls_name := "YandexCrawler"; cls_body := base_body b |}.

(** [class SafeYandexCrawler(YandexCrawler)] binds [__init__] and [run]. *)
Definition SafeYandexCrawler : class :=
  {| cls_name := "SafeYandexCrawler"; cls_body := ["__init__"; "run"] |}.

Definition mro (b : base_class) : list class :=
  [SafeYandexCrawler; YandexCrawler b].

(** Attributes of an instance after [__init__]: those of the base class
    constructor, then [consecutive_errors] and [max_errors]. *)
Definition instance_attrs (b : base_class) : list string :=
  List.map (mangle "YandexCrawler") (base_self b)
  ++ List.map (mangle "SafeYandexCrawler") ["consecutive_errors"; "max_errors"].

(** [self.<a>()] where the method, once found, behaves as [behaviour]. *)
Definition call_method {A} (b : base_class) (a : string) (behaviour : result A)
  : result A :=
  match getattr (instance_attrs b) (mro b) a with
  | Raise e => Raise e
  | Ok _ => behaviour
  end.

(** The attribute an identifier written in the body of [SafeYandexCrawler]
    stands for. *)
Definition written_here (name : string) : string :=
  mangle (cls_name SafeYandexCrawler) name.

(** The state of one producer process: the fields of the crawler object it
    owns, the module global [should_exit] of its process, its navigation
    session, its log and the time it has slept. *)
Record crawler : Type := {
  id : Z;
  start_link : string;
  max_errors : Z;
  consecutive_errors : Z;
  should_exit : bool;
  location : option string;
  driver_closed : bool;
  logged : list log_record;
  slept : Z
}.

(** [SafeYandexCrawler(... max_errors=max_errors)] in a fresh process. *)
Definition new_crawler (start_link : string) (id max_errors : Z) : crawler :=
  {| id := id; start_link := start_link; max_errors := max_errors;
     consecutive_errors := 0; should_exit := false; location := None;
     driver_closed := false; logged := []; slept := 0 |}.

Definition log (l : level) (m : string) (c : crawler) : crawler :=
  {| id := id c; start_link := start_link c; max_errors := max_errors c;
     consecutive_errors := consecutive_errors c; should_exit := should_exit c;
     location := location c; driver_closed := driver_closed c;
     logged := logged c ++ [(l, m)]; slept := slept c |}.

Definition driver_get (url : string) (c : crawler) : crawler :=
  {| id := id c; start_link := start_link c; max_errors := max_errors c;
     consecutive_errors := consecutive_errors c; should_exit := should_exit c;
     location := Some url; driver_closed := driver_closed c;
     logged := logged c; slept := slept c |}.

Definition driver_close (c : crawler) : crawler :=
  {| id := id c; start_link := start_link c; max_errors := max_errors c;
     consecutive_errors := consecutive_errors c; should_exit := should_exit c;
     location := location c; driver_closed := true;
     logged := logged c; slept := slept c |}.

Definition set_should_exit (c : crawler) : crawler :=
  {| id := id c; start_link := start_link c; max_errors := max_errors c;
     consecutive_errors := consecutive_errors c; should_exit := true;
     location := location c; driver_closed := driver_closed c;
     logged := logged c; slept := slept c |}.

Definition set_consecutive_errors (n : Z) (c : crawler) : crawler :=
  {| id := id c; start_link := start_link c; max_errors := max_errors c;
     consecutive_errors := n; should_exit := should_exit c;
     location := location c; driver_closed := driver_closed c;
     logged := logged c; slept := slept c |}.

Definition sleep (d : Z) (c : crawler) : crawler :=
  {| id := id c; start_link := start_link c; max_errors := max_errors c;
     consecutive_errors := consecutive_errors c; should_exit := should_exit c;
     location := location c; driver_closed := driver_closed c;
     logged := logged c; slept := slept c + d |}.

(** How a piece of [run] ends: the loop goes on, or [run] returns. *)
Inductive control : Type := Continue | Return.

(** The result of a piece of [run]: the shared flag [is_active.value], the
    producer, how the piece ended and the item put on the queue, if any. *)
Record step : Type := {
  flag_after : Z;
  crawler_after : crawler;
  ctl : control;
  put_item : option work_item
}.

(** Lines 57-67, from the point where [driver.get] has returned: the
    session is at the start link, and the first preview is opened.  [first]
    is what the method does once it has been found on the object.  (What
    [driver.get] raises is in [run_call] below.) *)
Definition run_init (b : base_class) (first : result unit)
    (is_active : Z) (c : crawler) : step :=
  let c := driver_get (start_link c) c in
  match call_method b (written_here "_SafeYandexCrawler__open_first_preview")
          first with
  | Raise e =>
      let c := log CRITICAL ("Process #" ++ str_int (id c)
                 ++ " can't open the first image: " ++ str_exn e) c in
      let c := log INFO "Exiting crawler due to initial error" c in
      let c := set_should_exit c in
      let c := driver_close c in
      {| flag_after := 0; crawler_after := c; ctl := Return; put_item := None |}
  | Ok _ =>
      {| flag_after := is_active; crawler_after := c; ctl := Continue;
         put_item := None |}
  end.

(** What the environment does in one pass of the loop: the inherited
    [__get_image_link], which may put an item on the queue before it returns
    or raises, and the inherited [__open_next_preview]. *)
Record iter_env : Type := {
  enqueued : option work_item;
  get_image_link : result unit;
  open_next_preview : result unit
}.

(** The [try] body of lines 76-77: the item put on the queue, and the
    exception that left the body, if any. *)
Definition try_body (b : base_class) (e : iter_env)
  : option work_item * option exn :=
  match getattr (instance_attrs b) (mro b)
          (written_here "_YandexCrawler__get_image_link") with
  | Raise x => (None, Some x)
  | Ok _ =>
      match get_image_link e with
      | Raise x => (enqueued e, Some x)
      | Ok _ =>
          match call_method b (written_here "_YandexCrawler__open_next_preview")
                  (open_next_preview e) with
          | Raise x => (enqueued e, Some x)
          | Ok _ => (enqueued e, None)
          end
      end
  end.

(** Whether the [try] body of a pass raises. *)
Definition raises (b : base_class) (e : iter_env) : bool :=
  match snd (try_body b e) with
  | Some _ => true
  | None => false
  end.

(** Lines 70-91: one pass of [while True]. *)
Definition iteration (b : base_class) (e : iter_env)
    (is_active : Z) (c : crawler) : step :=
  if ((is_active =? 0)%Z || should_exit c)%bool then
    let c := log INFO ("Process #" ++ str_int (id c) ++ " shutting down") c in
    let c := driver_close c in
    {| flag_after := is_active; crawler_after := c; ctl := Return;
       put_item := None |}
  else
    match try_body b e with
    | (item, None) =>
        let c := set_consecutive_errors 0 c in
        {| flag_after := is_active; crawler_after := c; ctl := Continue;
           put_item := item |}
    | (item, Some x) =>
        let c := set_consecutive_errors (consecutive_errors c + 1) c in
        let c := log CRITICAL ("Process #" ++ str_int (id c) ++ " error: "
                   ++ str_exn x) c in
        if (max_errors c <=? consecutive_errors c)%Z then
          let c := log CRITICAL ("Process #" ++ str_int (id c)
                     ++ " reached max consecutive errors ("
                     ++ str_int (max_errors c) ++ "). Shutting down.") c in
          let c := set_should_exit c in
          let c := driver_close c in
          {| flag_after := 0; crawler_after := c; ctl := Return;
             put_item := item |}
        else
          let c := sleep 2 c in
          {| flag_after := is_active; crawler_after := c; ctl := Continue;
             put_item := item |}
    end.

(** The loop over the environment's passes.  The result carries the items
    put on the queue, oldest first; [ctl] is [Continue] when the passes ran
    out with the loop still going. *)
Record outcome : Type := {
  flag_final : Z;
  crawler_final : crawler;
  ended : control;
  puts : list work_item;
  passes : nat
}.

Definition item_list (o : option work_item) : list work_item :=
  match o with Some x => [x] | None => [] end.

Fixpoint loop (b : base_class) (es : list iter_env) (is_active : Z)
    (c : crawler) : outcome :=
  match es with
  | [] => {| flag_final := is_active; crawler_final := c; ended := Continue;
             puts := []; passes := 0 |}
  | e :: rest =>
      let s := iteration b e is_active c in
      match ctl s with
      | Return =>
          {| flag_final := flag_after s; crawler_final := crawler_after s;
             ended := Return; puts := item_list (put_item s); passes := 1 |}
      | Continue =>
          let o := loop b rest (flag_after s) (crawler_after s) in
          {| flag_final := flag_final o; crawler_final := crawler_final o;
             ended := ended o; puts := item_list (put_item s) ++ puts o;
             passes := S (passes o) |}
      end
  end.

(** [SafeYandexCrawler.run], from the point where [driver.get] has
    returned. *)
Definition run (b : base_class) (first : result unit) (es : list iter_env)
    (is_active : Z) (c : crawler) : outcome :=
  let s := run_init b first is_active c in
  match ctl s with
  | Return =>
      {| flag_final := flag_after s; crawler_final := crawler_after s;
         ended := Return; puts := []; passes := 0 |}
  | Continue => loop b es (flag_after s) (crawler_after s)
  end.

(** A call of [run] as a whole.  Line 57, [self.driver.get(self.start_link)],
    stands before the [try]: what it raises leaves [run] at once, with
    nothing logged, the flag not written and the session not closed.  [get]
    is its outcome.  The result is the flag and the producer as the call
    leaves them, and what [run] did when it returned or the exception that
    left it. *)
Record call : Type := {
  flag_left : Z;
  crawler_left : crawler;
  returned : result outcome
}.

Definition run_call (b : base_class) (get first : result unit)
    (es : list iter_env) (is_active : Z) (c : crawler) : call :=
  match get with
  | Raise e =>
      {| flag_left := is_active; crawler_left := c; returned := Raise e |}
  | Ok _ =>
      let o := run b first es is_active c in
      {| flag_left := flag_final o; crawler_left := crawler_final o;
         returned := Ok o |}
  end.

(** The base class as the loop of [run] presumes it: private methods
    [__get_image_link], [__open_first_preview] and [__open_next_preview], and
    the constructor arguments kept on [self]. *)
Definition packaged_base : base_class :=
  {| base_body := ["__init__"; "__get_image_link"; "__open_first_preview";
                   "__open_next_preview"; "run"];
     base_self := ["start_link"; "load_queue"; "id"; "is_active"; "logger";
                   "driver"] |}.

(** The name [run] asks the object for, and sample environments. *)
Definition failing_pass : iter_env :=
  {| enqueued := None;
     get_image_link := Raise (OtherException "no such element");
     open_next_preview := Ok tt |}.

Definition good_pass : iter_env :=
  {| enqueued := Some {| locator := "https://example.org/cat.jpg";
                         declared_width := 1024; declared_height := 768 |};
     get_image_link := Ok tt;
     open_next_preview := Ok tt |}.

Definition first_preview : string :=
  written_here "_SafeYandexCrawler__open_first_preview".

(** A base class whose body does bind that name. *)
Definition obliging_base : base_class :=
  {| base_body := first_preview :: base_body packaged_base;
     base_self := base_self packaged_base |}.

End SafeCrawler.

(** ** [safe_crawler.py]: the orchestrator [safe_download] *)

Module SafeDownload.

Import SafeCrawler.

(** *** [multiprocessing.Queue] *)

Definition SEM_VALUE_MAX : Z := 2147483647.

Record queue : Type := {
  maxsize : Z;
  items : list work_item
}.

(** [Queue(maxsize)]: a bound that is not positive means the largest one. *)
Definition Queue (n : Z) : queue :=
  {| maxsize := if n <=? 0 then SEM_VALUE_MAX else n; items := [] |}.

Definition qsize (q : queue) : Z := Z.of_nat (length (items q)).

Definition full (q : queue) : bool := maxsize q <=? qsize q.

(** [put] blocks on a full queue ([None]: the caller has to wait). *)
Definition put (x : work_item) (q : queue) : option queue :=
  if full q then None
  else Some {| maxsize := maxsize q; items := items q ++ [x] |}.

(** [get] blocks on an empty queue. *)
Definition get (q : queue) : option (work_item * queue) :=
  match items q with
  | [] => None
  | x :: rest => Some (x, {| maxsize := maxsize q; items := rest |})
  end.

(** *** The parent process *)

(** Arguments of [safe_download] the model reads. *)
Record config : Type := {
  links : list string;
  image_count : Z;
  n_skip_files : Z;
  max_errors_arg : Z;
  timeout : Z
}.

Definition proc_num (cfg : config) : Z := Z.of_nat (length (links cfg)).

(** The parent's module global [should_exit], its clock and its log. *)
Record parent : Type := {
  should_exit : bool;
  clock : Q;
  start_time : Q;
  logged : list log_record
}.

Definition log (l : level) (msg : string) (m : parent) : parent :=
  {| should_exit := should_exit m; clock := clock m;
     start_time := start_time m; logged := logged m ++ [(l, msg)] |}.

(** Time passing: [time.sleep(d)], or the time other calls take. *)
Definition elapse (d : Q) (m : parent) : parent :=
  {| should_exit := should_exit m; clock := (clock m + d)%Q;
     start_time := start_time m; logged := logged m |}.

Definition set_should_exit (m : parent) : parent :=
  {| should_exit := true; clock := clock m;
     start_time := start_time m; logged := logged m |}.

Definition Qlt_bool (x y : Q) : bool := negb (Qle_bool y x).

(** Lines 139-143: the handler installed for SIGINT. *)
Definition signal_handler (is_active : Z) (m : parent) : Z * parent :=
  let m := log INFO "Received interrupt signal. Shutting down..." m in
  (0, set_should_exit m).

(** Why the monitoring loop was left. *)
Inductive leave : Type :=
  | NoLiveProcess
  | StopRequested
  | TimedOut
  | Interrupted.

Inductive monitor_control : Type :=
  | Go
  | Leave (why : leave).

(** What the environment does during one pass of the monitoring loop:
    whether a [KeyboardInterrupt] is raised in it, whether any child is
    alive, how long the pass takes before it reads the clock, and the
    number of files [os.walk] reports, if the directory is there. *)
Record monitor_env : Type := {
  keyboard_interrupt : bool;
  any_alive : bool;
  overhead : Q;
  n_files : option Z
}.

Definition downloaded_count (cfg : config) (n : option Z) : Z :=
  match n with
  | Some k => k - n_skip_files cfg
  | None => 0
  end.

(** Lines 186-210: one pass of the monitoring loop, with the handler of
    [KeyboardInterrupt]. *)
Definition monitor_pass (cfg : config) (e : monitor_env)
    (is_active : Z) (m : parent) : Z * parent * monitor_control :=
  let m := elapse (overhead e) m in
  if keyboard_interrupt e then
    (0, log INFO "Keyboard interrupt received. Shutting down..." m,
     Leave Interrupted)
  else if negb (any_alive e) then (is_active, m, Leave NoLiveProcess)
  else if (should_exit m || (is_active =? 0)%Z)%bool then
    (0, log INFO "Stopping all processes..." m, Leave StopRequested)
  else if ((0 <? timeout cfg)%Z
           && Qlt_bool (inject_Z (timeout cfg)) (clock m - start_time m))%bool then
    (0, log INFO ("Reached timeout of " ++ str_int (timeout cfg)
                  ++ " seconds. Shutting down...") m,
     Leave TimedOut)
  else
    let m := log INFO ("Downloaded "
                       ++ str_int (downloaded_count cfg (n_files e))
                       ++ " images so far...") m in
    (is_active, elapse 5 m, Go).

(** The monitoring loop over the environment's passes; [Go] at the end means
    the passes ran out with the loop still going. *)
Fixpoint monitor_loop (cfg : config) (es : list monitor_env)
    (is_active : Z) (m : parent) : Z * parent * monitor_control :=
  match es with
  | [] => (is_active, m, Go)
  | e :: rest =>
      match monitor_pass cfg e is_active m with
      | (f, m', Go) => monitor_loop cfg rest f m'
      | r => r
      end
  end.

(** Lines 216-219: up to five checks, one second apart. *)
Fixpoint grace_wait (n : nat) (alive : list bool) (m : parent) : parent :=
  match n, alive with
  | S n', true :: rest => grace_wait n' rest (elapse 1 m)
  | _, _ => m
  end.

(** Lines 211-232: the [finally] block. *)
Definition finalizer (cfg : config) (alive : list bool) (files : option Z)
    (is_active : Z) (m : parent) : Z * parent :=
  let m := grace_wait 5 alive m in
  (0, log INFO ("Download complete. Downloaded "
                ++ str_int (downloaded_count cfg files) ++ " images.") m).

(** *** The processes of a run, interleaved *)

Inductive phase : Type := NotStarted | Looping | Exited.

Record system : Type := {
  is_active : Z;
  load_queue : queue;
  producers : list (crawler * phase);
  orchestrator : parent;
  finalized : bool
}.

(** Lines 131-133 and 148-155: the queue, the flag [Value("i", True)] and
    one producer per link, numbered from 0. *)
Fixpoint spawn (ls : list string) (i : Z) (max_errors : Z)
  : list (crawler * phase) :=
  match ls with
  | [] => []
  | l :: rest => (new_crawler l i max_errors, NotStarted) :: spawn rest (i + 1) max_errors
  end.

Definition start (cfg : config) (now : Q) : system :=
  {| is_active := 1;
     load_queue := Queue (10 * proc_num cfg);
     producers := spawn (links cfg) 0 (max_errors_arg cfg);
     orchestrator := {| should_exit := false; clock := now;
                        start_time := now; logged := [] |};
     finalized := false |}.

Inductive event : Type :=
  | ProducerStep (i : nat) (first : result unit) (e : iter_env)
  | LoaderGet
  | CheckerPass (files : Z)
  | Sigint
  | MonitorPass (e : monitor_env)
  | Finalize (alive : list bool) (files : option Z).

Definition set_producer (i : nat) (p : crawler * phase) (s : system) : system :=
  {| is_active := is_active s; load_queue := load_queue s;
     producers := <[i := p]> (producers s);
     orchestrator := orchestrator s; finalized := finalized s |}.

Definition commit (i : nat) (st : step) (q : queue) (s : system) : system :=
  {| is_active := flag_after st; load_queue := q;
     producers := <[i := (crawler_after st,
                          match ctl st with Continue => Looping | Return => Exited end)]>
                    (producers s);
     orchestrator := orchestrator s; finalized := finalized s |}.

(** Producer [i] runs its next piece of [run], a whole pass of the loop
    being one step: the test of the flag at line 70 and the [put] made
    within [__get_image_link] are taken together.  A pass whose item does
    not fit in the queue waits in [put]: nothing changes yet. *)
Definition producer_step (b : base_class) (i : nat) (first : result unit)
    (e : iter_env) (s : system) : system :=
  match producers s !! i with
  | None => s
  | Some (c, NotStarted) =>
      commit i (run_init b first (is_active s) c) (load_queue s) s
  | Some (c, Looping) =>
      let st := iteration b e (is_active s) c in
      match put_item st with
      | None => commit i st (load_queue s) s
      | Some x =>
          match put x (load_queue s) with
          | None => s
          | Some q => commit i st q s
          end
      end
  | Some (c, Exited) => s
  end.

(** Modelled from the spec: the [CountChecker] of the installed package
    [yandex_images_crawler] (section 4.5): with a positive target, it lowers
    the flag once the files beyond the initial ones reach the target. *)
Definition checker_pass (cfg : config) (files : Z) (is_active : Z) : Z :=
  if ((0 <? image_count cfg)%Z
      && (image_count cfg <=? files - n_skip_files cfg)%Z)%bool
  then 0 else is_active.

Definition step_system (b : base_class) (cfg : config) (ev : event)
    (s : system) : system :=
  match ev with
  | ProducerStep i first e => producer_step b i first e s
  | LoaderGet =>
      match get (load_queue s) with
      | None => s
      | Some (_, q) =>
          {| is_active := is_active s; load_queue := q;
             producers := producers s; orchestrator := orchestrator s;
             finalized := finalized s |}
      end
  | CheckerPass files =>
      {| is_active := checker_pass cfg files (is_active s);
         load_queue := load_queue s; producers := producers s;
         orchestrator := orchestrator s; finalized := finalized s |}
  | Sigint =>
      let '(f, m) := signal_handler (is_active s) (orchestrator s) in
      {| is_active := f; load_queue := load_queue s;
         producers := producers s; orchestrator := m;
         finalized := finalized s |}
  | MonitorPass e =>
      if finalized s then s
      else
        let '(f, m, _) := monitor_pass cfg e (is_active s) (orchestrator s) in
        {| is_active := f; load_queue := load_queue s;
           producers := producers s; orchestrator := m;
           finalized := finalized s |}
  | Finalize alive files =>
      if finalized s then s
      else
        let '(f, m) := finalizer cfg alive files (is_active s) (orchestrator s) in
        {| is_active := f; load_queue := load_queue s;
           producers := producers s; orchestrator := m; finalized := true |}
  end.

Definition exec (b : base_class) (cfg : config) (evs : list event)
    (s : system) : system :=
  fold_left (fun s ev => step_system b cfg ev s) evs s.

(** Time since [start_time], and a pass in which nothing but the clock can
    stop the loop and which spends at most [delta] outside its sleep. *)
Definition elapsed (m : parent) : Q := (clock m - start_time m)%Q.

Definition quiet (delta : Q) (e : monitor_env) : Prop :=
  keyboard_interrupt e = false /\ any_alive e = true
  /\ (0 <= overhead e)%Q /\ (overhead e <= delta)%Q.

(** What every step keeps: the bound of the queue, its occupancy under ten
    per link, and one producer per link. *)
Definition queue_inv (cfg : config) (s : system) : Prop :=
  maxsize (load_queue s) = maxsize (Queue (10 * proc_num cfg))
  /\ qsize (load_queue s) <= 10 * proc_num cfg
  /\ length (producers s) = length (links cfg).

(** A sample run of the monitoring loop: a time-out of 7 seconds and passes
    that take no time besides their sleep. *)
Definition sample_config : config :=
  {| links := ["https://yandex.com/images/search?text=cat"];
     image_count := 10; n_skip_files := 0; max_errors_arg := 10;
     timeout := 7 |}.

Definition quiet_pass : monitor_env :=
  {| keyboard_interrupt := false; any_alive := true; overhead := 0;
     n_files := Some 0 |}.

Definition fresh_parent : parent :=
  {| should_exit := false; clock := 0; start_time := 0; logged := [] |}.

End SafeDownload.

(** ** [yandex_crawler_gui.py]: the loop of [download_images] *)

Module Gui.

Import SafeDownload.

(** A decoded image: [img.size] and the array [np.array(img)]. *)
Record image : Type := {
  img_width : Z;
  img_height : Z;
  pixels : list Z
}.

(** [file.split(".")[0]] *)
Definition stem (file : string) : string :=
  match split_on "." file with
  | f :: _ => f
  | [] => EmptyString
  end.

(** Lines 353-356: the stems of the files found in the output directory. *)
Definition initial_files_of (dir : gset string) : gset string :=
  set_map stem dir.

(** The values read from the form, the time the loop started and the set
    [initial_files]. *)
Record config : Type := {
  count : Z;
  width : Z;
  height : Z;
  max_errors : Z;
  timeout : Z;
  start_time : Q;
  initial_files : gset string
}.

(** The locals of the loop, the files of the output directory, and the hash
    names saved by this run, oldest first. *)
Record gui : Type := {
  downloaded : Z;
  consecutive_errors : Z;
  files : gset string;
  written : list string;
  logged : list string
}.

Definition log_message (msg : string) (g : gui) : gui :=
  {| downloaded := downloaded g; consecutive_errors := consecutive_errors g;
     files := files g; written := written g; logged := logged g ++ [msg] |}.

(** Lines 569-572: the file is saved under the hash name and counted. *)
Definition saved (hash_name img_path : string) (g : gui) : gui :=
  {| downloaded := downloaded g + 1; consecutive_errors := consecutive_errors g;
     files := {[ img_path ]} ∪ files g; written := written g ++ [hash_name];
     logged := logged g |}.

Definition set_consecutive_errors (n : Z) (g : gui) : gui :=
  {| downloaded := downloaded g; consecutive_errors := n;
     files := files g; written := written g; logged := logged g |}.

(** What the environment does during one pass: the stop event, the clock,
    the size and the link found on the page, the HTTP response (its status
    and what [Image.open] makes of its content), the outcome of the
    conversion and [img.save], and of the click on the next button. *)
Record page_env : Type := {
  stop_is_set : bool;
  now : Q;
  size_found : option (Z * Z);
  link : option string;
  response : result (Z * result image);
  save : result unit;
  next : result unit
}.

Inductive reason : Type :=
  | Stopped
  | Timeout
  | TargetReached
  | MaxErrors.

Inductive control : Type :=
  | Go
  | Break (r : reason).

Section WithHash.

(** [hashlib.sha256(a).hexdigest()] of a pixel array. *)
Variable sha256_hexdigest : list Z -> string.

(** Lines 563-572: the decoded image against the minimum size, the initial
    files and the output directory. *)
Definition admit_image (cfg : config) (e : page_env) (img : image) (g : gui)
  : gui :=
  if ((width cfg <=? img_width img) && (height cfg <=? img_height img))%bool then
    let hash_name := sha256_hexdigest (pixels img) in
    let img_path := hash_name ++ ".png" in
    if (negb (bool_decide (hash_name ∈ initial_files cfg))
        && negb (bool_decide (img_path ∈ files g)))%bool then
      match save e with
      | Raise x => log_message ("Error downloading image: " ++ str_exn x) g
      | Ok _ =>
          let g := saved hash_name img_path g in
          let g := log_message ("Downloaded image " ++ str_int (downloaded g)
                     ++ ": " ++ str_int (img_width img) ++ "x"
                     ++ str_int (img_height img)) g in
          set_consecutive_errors 0 g
      end
    else g
  else g.

(** Lines 545-574: the inner [try]. *)
Definition try_download (cfg : config) (e : page_env) (g : gui) : gui :=
  match response e with
  | Raise x => log_message ("Error downloading image: " ++ str_exn x) g
  | Ok (status_code, opened) =>
      if ((200 <=? status_code) && (status_code <? 300))%bool then
        match opened with
        | Raise x => log_message ("Error downloading image: " ++ str_exn x) g
        | Ok img => admit_image cfg e img g
        end
      else g
  end.

(** Lines 482-584: the outer [try] body; the exception that leaves it, if
    any. *)
Definition try_body (cfg : config) (e : page_env) (g : gui)
  : gui * option exn :=
  match size_found e with
  | None => (g, Some (OtherException "Could not get image size."))
  | Some (width_found, height_found) =>
      match link e with
      | None => (g, Some (OtherException "Could not get image link."))
      | Some l =>
          let g :=
            if ((width cfg <=? width_found) && (height cfg <=? height_found))%bool
            then
              try_download cfg e
                (log_message ("Found image: " ++ str_int width_found ++ "x"
                              ++ str_int height_found ++ " - " ++ l) g)
            else g in
          match next e with
          | Raise x =>
              (g, Some (OtherException
                          ("Could not move to the next image: " ++ str_exn x)))
          | Ok _ => (g, None)
          end
      end
  end.

(** Lines 471-594: one pass of the [while] loop. *)
Definition iteration (cfg : config) (e : page_env) (g : gui) : gui * control :=
  if stop_is_set e then (g, Break Stopped)
  else if ((0 <? timeout cfg)
           && Qlt_bool (inject_Z (timeout cfg)) (now e - start_time cfg))%bool then
    (log_message ("Reached timeout of " ++ str_int (timeout cfg) ++ " seconds.") g,
     Break Timeout)
  else if ((0 <? count cfg) && (count cfg <=? downloaded g))%bool then
    (log_message ("Downloaded " ++ str_int (downloaded g)
                  ++ " images. Target reached.") g,
     Break TargetReached)
  else
    match try_body cfg e g with
    | (g, None) => (g, Go)
    | (g, Some x) =>
        let g := set_consecutive_errors (consecutive_errors g + 1) g in
        let g := log_message ("Error: " ++ str_exn x) g in
        if max_errors cfg <=? consecutive_errors g then
          (log_message ("Reached maximum consecutive errors ("
                        ++ str_int (max_errors cfg) ++ "). Stopping.") g,
           Break MaxErrors)
        else (g, Go)
    end.

(** The loop over the environment's passes; [Go] at the end means the passes
    ran out with the loop still going. *)
Fixpoint loop (cfg : config) (es : list page_env) (g : gui) : gui * control :=
  match es with
  | [] => (g, Go)
  | e :: rest =>
      match iteration cfg e g with
      | (g', Go) => loop cfg rest g'
      | r => r
      end
  end.

End WithHash.

(** Lines 468-469: the locals when the loop is entered, over the files the
    output directory holds then. *)
Definition enter (dir : gset string) : gui :=
  {| downloaded := 0; consecutive_errors := 0; files := dir; written := [];
     logged := [] |}.

(** The image the pass decodes, if the response is a success and
    [Image.open] accepts its content. *)
Definition decoded (e : page_env) : option image :=
  match response e with
  | Ok (status_code, Ok img) =>
      if ((200 <=? status_code) && (status_code <? 300))%bool then Some img
      else None
  | _ => None
  end.

(** The output directory, the counter and the saved hash names are the same
    in [g'] as in [g]. *)
Definition same_store (g g' : gui) : Prop :=
  files g' = files g /\ written g' = written g /\ downloaded g' = downloaded g.

(** [g'] is [g] with one more file, saved under the hash name [h]. *)
Definition one_saved (cfg : config) (h : string) (g g' : gui) : Prop :=
  (h ∉ initial_files cfg) /\ ((h ++ ".png")%string ∉ files g)
  /\ files g' = {[ (h ++ ".png")%string ]} ∪ files g
  /\ written g' = (written g ++ [h])%list
  /\ downloaded g' = downloaded g + 1.

(** What the loop keeps, from a state with nothing saved yet over the
    directory [dir]: the saved hash names are distinct, none was among the
    initial files, the file of each is in the directory now and was not in
    [dir], and the counter is their number, within a positive target. *)
Definition loop_inv (cfg : config) (dir : gset string) (g : gui) : Prop :=
  NoDup (written g)
  /\ (forall h, h ∈ written g ->
        (h ∉ initial_files cfg) /\ ((h ++ ".png")%string ∈ files g)
        /\ ((h ++ ".png")%string ∉ dir))
  /\ dir ⊆ files g
  /\ downloaded g = Z.of_nat (length (written g))
  /\ (0 < count cfg -> downloaded g <= count cfg).

(** The files of the output directory are those of [dir] and one [.png]
    for each hash name saved, and their number is that of [dir] plus the
    counter. *)
Definition files_counted (dir : gset string) (g : gui) : Prop :=
  Z.of_nat (size (files g)) = Z.of_nat (size dir) + downloaded g
  /\ (forall file,
        file ∈ files g
        <-> file ∈ dir
            \/ exists h, h ∈ written g /\ file = (h ++ ".png")%string).

(** Two passes that differ at most in what [requests.get] answers and in
    the outcome of the save. *)
Definition same_page (e e' : page_env) : Prop :=
  stop_is_set e' = stop_is_set e /\ now e' = now e
  /\ size_found e' = size_found e /\ link e' = link e /\ next e' = next e.

(** A sample run: a minimum of 800x600, an empty output directory, and a
    page whose image decodes to 1024x768 whatever size the page declares. *)
Definition sample_config : config :=
  {| count := 10; width := 800; height := 600; max_errors := 10;
     timeout := 300; start_time := 0; initial_files := ∅ |}.

Definition sample_image : image :=
  {| img_width := 1024; img_height := 768; pixels := [12; 34; 56] |}.

Definition sample_page (declared : Z * Z) : page_env :=
  {| stop_is_set := false; now := 1; size_found := Some declared;
     link := Some "https://example.org/cat.jpg";
     response := Ok (200, Ok sample_image); save := Ok tt; next := Ok tt |}.

Definition sample_hash (a : list Z) : string := "abc123".

End Gui.

(** ** More Python text primitives *)

Module PyStr.

(** [s.startswith(p)] *)
Definition startswith (p s : string) : bool := String.prefix p s.

(** [s.replace(old, new)] for a one-character [old]. *)
Fixpoint replace_char (old : ascii) (new s : string) : string :=
  match s with
  | EmptyString => EmptyString
  | String c r =>
      if Ascii.eqb c old then (new ++ replace_char old new r)%string
      else String c (replace_char old new r)
  end.

(** Number of occurrences of a character. *)
Fixpoint count_char (c : ascii) (s : string) : nat :=
  match s with
  | EmptyString => 0%nat
  | String d r => if Ascii.eqb d c then S (count_char c r) else count_char c r
  end.

(** [s.split(sep)] for a separator of one character or more, read from the
    left.  [skip] counts the characters of a separator still to pass
    over. *)
Fixpoint split_from (sep s : string) (skip : nat) : list string :=
  match s with
  | EmptyString => [EmptyString]
  | String c r =>
      match skip with
      | S k => split_from sep r k
      | O =>
          if String.prefix sep s
          then EmptyString :: split_from sep r (Nat.pred (String.length sep))
          else match split_from sep r 0 with
               | f :: fs => String c f :: fs
               | [] => [String c EmptyString]
               end
      end
  end.

Definition split (sep s : string) : list string := split_from sep s 0.

End PyStr.

(** ** Vocabulary for the shutdown of [safe_download] *)

Module Shutdown.

(** Number of readings [true] at the head of a list, among the first [n]. *)
Fixpoint leading_alive (n : nat) (alive : list bool) : nat :=
  match n, alive with
  | S n', true :: rest => S (leading_alive n' rest)
  | _, _ => O
  end.

End Shutdown.
Export Shutdown.

(** ** [safe_crawler.main]: from the arguments to the call of
    [safe_download] *)

Module Main.

Import PyStr.

Definition search_prefix : string := "https://yandex.com/images/search?text=".

(** Lines 305-309 (and lines 312-316 of the window, lines 43-46 of the
    example scripts): a term that is not a link becomes a search link. *)
Definition search_url (search : string) : string :=
  if startswith "http" search then search
  else (search_prefix ++ replace_char " " "%20" search)%string.

(** Lines 319-323: the stems of the files [os.walk] lists in the output
    directory; nothing when the directory is not there. *)
Definition skip_files (listing : option (gset string)) : gset string :=
  match listing with
  | Some files => set_map Gui.stem files
  | None => ∅
  end.

(** The parsed command line. *)
Record args : Type := {
  search : string;
  count : Z;
  size : string;
  dir : string;
  headless : bool;
  max_errors : Z;
  timeout : Z
}.

(** Lines 305-323: what [main] works out for [safe_download] from the
    arguments and the directory, namely the arguments the embedding of
    [safe_download] reads, the minimum size and what was logged. *)
Definition main (a : args) (listing : option (gset string))
  : result (SafeDownload.config * (Z * Z) * list log_record) :=
  match SizeArg.image_size_of_arg (size a) with
  | Raise e => Raise e
  | Ok (image_size, records) =>
      Ok ({| SafeDownload.links := [search_url (search a)];
             SafeDownload.image_count := count a;
             SafeDownload.n_skip_files :=
               Z.of_nat (base.size (skip_files listing));
             SafeDownload.max_errors_arg := max_errors a;
             SafeDownload.timeout := timeout a |},
          image_size, records)
  end.

(** Lines 303-347: [main] up to the call of [safe_download].  Between the
    processing of the arguments and the call stand the prints of lines
    325-334; [out] is their outcome, and what a print raises (the search
    term may hold what standard output cannot encode) leaves [main] before
    the call. *)
Definition main_run (out : result unit) (a : args)
    (listing : option (gset string))
  : result (SafeDownload.config * (Z * Z) * list log_record) :=
  match main a listing with
  | Raise e => Raise e
  | Ok handed =>
      match out with
      | Raise e => Raise e
      | Ok _ => Ok handed
      end
  end.

End Main.

(** ** [yandex_crawler_gui.py]: the form of the window *)

Module GuiForm.

Import PyStr.

(** The variables behind the entries of the window. *)
Record form : Type := {
  search_var : string;
  count_var : string;
  width_var : string;
  height_var : string;
  output_dir_var : string;
  headless_var : bool;
  max_errors_var : string;
  timeout_var : string
}.

(** [messagebox.showerror(title, message)] *)
Definition dialog : Type := (string * string)%type.

(** Lines 186-237.  [mkdir] is the outcome of creating the output
    directory.  The result is the value returned and the dialog shown, if
    any. *)
Definition validate_inputs (mkdir : result unit) (f : form)
  : bool * option dialog :=
  if String.eqb (strip (search_var f)) EmptyString then
    (false, Some ("Input Error", "Please enter a search term or URL."))
  else
    match int (count_var f) with
    | Raise _ =>
        (false, Some ("Input Error",
                      "Number of images must be a non-negative integer."))
    | Ok count =>
        if count <? 0 then
          (false, Some ("Input Error",
                        "Number of images must be a non-negative integer."))
        else
          match int (width_var f) with
          | Raise _ =>
              (false, Some ("Input Error",
                            "Width and height must be non-negative integers."))
          | Ok width =>
              match int (height_var f) with
              | Raise _ =>
                  (false, Some ("Input Error",
                                "Width and height must be non-negative integers."))
              | Ok height =>
                  if ((width <? 0) || (height <? 0))%bool then
                    (false, Some ("Input Error",
                                  "Width and height must be non-negative integers."))
                  else
                    match int (max_errors_var f) with
                    | Raise _ =>
                        (false, Some ("Input Error",
                                      "Max errors must be a positive integer."))
                    | Ok max_errors =>
                        if max_errors <=? 0 then
                          (false, Some ("Input Error",
                                        "Max errors must be a positive integer."))
                        else
                          match int (timeout_var f) with
                          | Raise _ =>
                              (false, Some ("Input Error",
                                            "Timeout must be a non-negative integer."))
                          | Ok timeout =>
                              if timeout <? 0 then
                                (false, Some ("Input Error",
                                              "Timeout must be a non-negative integer."))
                              else
                                match mkdir with
                                | Raise e =>
                                    (false,
                                     Some ("Directory Error",
                                           ("Could not create output directory: "
                                            ++ str_exn e)%string))
                                | Ok _ => (true, None)
                                end
                          end
                    end
              end
          end
    end.

(** What the form has to hold for [validate_inputs] to accept it. *)
Definition acceptable (f : form) : Prop :=
  strip (search_var f) <> EmptyString
  /\ (exists count, int (count_var f) = Ok count /\ 0 <= count)
  /\ (exists width height,
        int (width_var f) = Ok width /\ int (height_var f) = Ok height
        /\ 0 <= width /\ 0 <= height)
  /\ (exists max_errors,
        int (max_errors_var f) = Ok max_errors /\ 1 <= max_errors)
  /\ (exists timeout, int (timeout_var f) = Ok timeout /\ 0 <= timeout).

(** A form whose entries are ASCII text. *)
Definition ascii_form (f : form) : bool :=
  (all_chars is_ascii (search_var f) && all_chars is_ascii (count_var f)
   && all_chars is_ascii (width_var f) && all_chars is_ascii (height_var f)
   && all_chars is_ascii (max_errors_var f)
   && all_chars is_ascii (timeout_var f))%bool.

(** The parameters [download_images] reads back from the form. *)
Record parameters : Type := {
  p_search : string;
  p_count : Z;
  p_width : Z;
  p_height : Z;
  p_max_errors : Z;
  p_timeout : Z;
  p_search_url : string
}.

(** Lines 303-316 of [download_images]: the values are read again with
    [int]; an exception here leaves for the outer handler. *)
Definition read_parameters (f : form) : result parameters :=
  let search := strip (search_var f) in
  match int (count_var f) with
  | Raise e => Raise e
  | Ok count =>
      match int (width_var f) with
      | Raise e => Raise e
      | Ok width =>
          match int (height_var f) with
          | Raise e => Raise e
          | Ok height =>
              match int (max_errors_var f) with
              | Raise e => Raise e
              | Ok max_errors =>
                  match int (timeout_var f) with
                  | Raise e => Raise e
                  | Ok timeout =>
                      Ok {| p_search := search; p_count := count;
                            p_width := width; p_height := height;
                            p_max_errors := max_errors; p_timeout := timeout;
                            p_search_url :=
                              if negb (startswith "http" search)
                              then (Main.search_prefix
                                    ++ replace_char " " "%20" search)%string
                              else search |}
                  end
              end
          end
      end
  end.

End GuiForm.

(** ** Vocabulary for the error budget of the window's loop *)

Module GuiBudget.

(** Whether the outer [try] body of a pass raises: no size, no link, or no
    way to the next image. *)
Definition pass_raises (e : Gui.page_env) : bool :=
  match Gui.size_found e, Gui.link e, Gui.next e with
  | None, _, _ => true
  | Some _, None, _ => true
  | Some _, Some _, Raise _ => true
  | Some _, Some _, Ok _ => false
  end.

Definition raising_passes (es : list Gui.page_env) : Z :=
  Z.of_nat (length (List.filter pass_raises es)).

(** Sample passes that save nothing: the request fails, and the first finds
    its way to the next image while the second does not; the third decodes
    an image of 400x300, below the minimum of the sample run. *)
Definition unfetched_page : Gui.page_env :=
  {| Gui.stop_is_set := false; Gui.now := 1; Gui.size_found := Some (1024, 768);
     Gui.link := Some "https://example.org/cat.jpg";
     Gui.response := Raise (OtherException "connection timed out");
     Gui.save := Ok tt; Gui.next := Ok tt |}.

Definition stuck_page : Gui.page_env :=
  {| Gui.stop_is_set := false; Gui.now := 1; Gui.size_found := Some (1024, 768);
     Gui.link := Some "https://example.org/cat.jpg";
     Gui.response := Raise (OtherException "connection timed out");
     Gui.save := Ok tt; Gui.next := Raise (OtherException "no such element") |}.

Definition small_page : Gui.page_env :=
  {| Gui.stop_is_set := false; Gui.now := 1; Gui.size_found := Some (1024, 768);
     Gui.link := Some "https://example.org/thumb.jpg";
     Gui.response :=
       Ok (200, Ok {| Gui.img_width := 400; Gui.img_height := 300;
                      Gui.pixels := [1; 2; 3] |});
     Gui.save := Ok tt; Gui.next := Ok tt |}.

End GuiBudget.

(** ** [yandex_crawler_gui.py]: the size shown on the page *)

Module GuiPage.

Import PyStr.

(** The class names looked up for the size, in this order. *)
Definition size_sources : list string :=
  ["OpenImageButton-SizesButton"; "MMViewerButtons-ImageSizes";
   "OpenImageButton-SaveSize"; "Button2-Text"].

(** The sign between width and height (two bytes in UTF-8). *)
Definition times_sign : string := "×".

(** [[int(i) for i in parts]]: every field is read, from the left. *)
Fixpoint ints (parts : list string) : result (list Z) :=
  match parts with
  | [] => Ok []
  | p :: rest =>
      match int p with
      | Raise e => Raise e
      | Ok z =>
          match ints rest with
          | Raise e => Raise e
          | Ok zs => Ok (z :: zs)
          end
      end
  end.

(** Line 499: [width_found, height_found = [int(i) for i in
    elem.text.split("×")]]. *)
Definition read_size (text : string) : result (Z * Z) :=
  match ints (split times_sign text) with
  | Raise e => Raise e
  | Ok [w; h] => Ok (w, h)
  | Ok [] | Ok [_] =>
      Raise (ValueError "not enough values to unpack")
  | Ok _ => Raise (ValueError "too many values to unpack (expected 2)")
  end.



(** Lines 497-502: the elements of one class, each with the outcome of
    reading its text; the first that reads as a size ends the search. *)
Fixpoint scan_elements (elems : list (result string)) : option (Z * Z) :=
  match elems with
  | [] => None
  | Raise _ :: rest => scan_elements rest
  | Ok text :: rest =>
      match read_size text with
      | Ok wh => Some wh
      | Raise _ => scan_elements rest
      end
  end.

(** Lines 494-502: the classes in turn, until a size has been found.
    [find_elements] is what the driver answers for a class name. *)
Fixpoint scan_sources (find_elements : string -> result (list (result string)))
    (sources : list string) (found : option (Z * Z))
  : result (option (Z * Z)) :=
  match sources with
  | [] => Ok found
  | source :: rest =>
      match found with
      | Some _ => Ok found
      | None =>
          match find_elements source with
          | Raise e => Raise e
          | Ok elems => scan_sources find_elements rest (scan_elements elems)
          end
      end
  end.

(** Lines 484-505. *)
Definition image_size (find_elements : string -> result (list (result string)))
  : result (Z * Z) :=
  match scan_sources find_elements size_sources None with
  | Raise e => Raise e
  | Ok None => Raise (OtherException "Could not get image size.")
  | Ok (Some wh) => Ok wh
  end.


End GuiPage.

(** ** Vocabulary for what the window's loop does to the directory *)

Module GuiFrame.

Import Gui.

(** [g'] is [g] with the files of the hash names [new], saved in this
    order, none of which was there. *)
Definition grown_by (cfg : config) (new : list string) (g g' : gui) : Prop :=
  written g' = (written g ++ new)%list
  /\ downloaded g' = downloaded g + Z.of_nat (length new)
  /\ files g ⊆ files g'
  /\ (forall file, file ∈ files g' ->
        file ∈ files g \/ exists h, h ∈ new /\ file = (h ++ ".png")%string)
  /\ (forall h, h ∈ new ->
        ((h ++ ".png")%string ∈ files g')
        /\ ((h ++ ".png")%string ∉ files g)
        /\ (h ∉ initial_files cfg)).

End GuiFrame.

(** ** [yandex_crawler_gui.py]: the link shown on the page *)

Module GuiLink.

(** [b in s] for two strings. *)
Fixpoint contains (b s : string) : bool :=
  (String.prefix b s
   || match s with
      | EmptyString => false
      | String _ r => contains b r
      end)%bool.


Definition blacklist : list string :=
  ["yandex-images"; "avatars.mds.yandex.net"].

Definition blacklisted (l : string) : bool :=
  existsb (fun b => contains b l) blacklist.

(** What an element answers to [get_attribute("href")], the first time and
    when asked again two seconds later; [None] is an element without the
    attribute. *)
Record element : Type := {
  href : result (option string);
  href_again : result (option string)
}.

(** Lines 525-535: the elements of one class.  [link] is the variable as
    it stands; the result is the variable when the loop is left. *)
Fixpoint scan_elements (elems : list element) (link : option string)
  : option string :=
  match elems with
  | [] => link
  | elem :: rest =>
      match href elem with
      | Raise _ => scan_elements rest link
      | Ok None => scan_elements rest None
      | Ok (Some l) =>
          if blacklisted l then
            match href_again elem with
            | Raise _ => scan_elements rest (Some l)
            | Ok again => again
            end
          else Some l
      end
  end.

(** Lines 522-535: the classes in turn, until the variable holds a link. *)
Fixpoint scan_sources (find_elements : string -> result (list element))
    (sources : list string) (link : option string) : result (option string) :=
  match sources with
  | [] => Ok link
  | source :: rest =>
      match link with
      | Some _ => Ok link
      | None =>
          match find_elements source with
          | Raise e => Raise e
          | Ok elems => scan_sources find_elements rest (scan_elements elems None)
          end
      end
  end.




End GuiLink.

(** ** [yandex_crawler_gui.py]: opening the first image *)

Module GuiFirstImage.

(** Lines 405-414. *)
Definition first_image_selectors : list string :=
  ["img[class*='ImagesContentImage-Image_clickable']";
   "img[class*='serp-item__thumb']";
   ".serp-item__link";
   ".serp-item";
   "div[class*='serp-item']";
   "div[data-grid-position]";
   "a[href*='images/search'] img";
   "div[class*='Image'] img"].

(** What the driver does for a selector: the number of elements it finds,
    and the outcome of the click on the first of them. *)
Record selector_env : Type := {
  found : result nat;
  click : result unit
}.

(** How the first image came to be open. *)
Inductive way : Type :=
  | BySelector (selector : string)
  | ByScript
  | ByHand.

(** Lines 417-428: the selectors in turn; the one that worked, if any, and
    the messages logged. *)
Fixpoint try_selectors (env : string -> selector_env) (selectors : list string)
  : option string * list string :=
  match selectors with
  | [] => (None, [])
  | selector :: rest =>
      let trying := ("Trying to find image with selector: " ++ selector)%string in
      match found (env selector) with
      | Raise e =>
          let (r, msgs) := try_selectors env rest in
          (r, trying
              :: ("Selector " ++ selector ++ " failed: " ++ str_exn e)%string
              :: msgs)
      | Ok O =>
          let (r, msgs) := try_selectors env rest in (r, trying :: msgs)
      | Ok (S n) =>
          let found_msg :=
            ("Found " ++ str_int (Z.of_nat (S n))
             ++ " elements with selector: " ++ selector)%string in
          match click (env selector) with
          | Ok _ =>
              (Some selector,
               [trying; found_msg; "First image opened successfully."])
          | Raise e =>
              let (r, msgs) := try_selectors env rest in
              (r, trying :: found_msg
                  :: ("Selector " ++ selector ++ " failed: " ++ str_exn e)%string
                  :: msgs)
          end
      end
  end.

(** Lines 416-464: the selectors, then the script, then the user.  The
    result is the way the image was opened and the messages logged, or the
    exception raised at line 464. *)
Definition open_first_image (env : string -> selector_env)
    (script : result unit) : result (way * list string) :=
  let (r, msgs) := try_selectors env first_image_selectors in
  let image_found := match r with Some _ => true | None => false end in
  let opened := match r with Some s => Some (BySelector s) | None => None end in
  let '(image_found, opened, msgs) :=
    if negb image_found then
      let msgs := (msgs ++ ["Trying JavaScript click on first image..."])%list in
      match script with
      | Ok _ =>
          (true, Some ByScript,
           (msgs ++ ["First image opened with JavaScript."])%list)
      | Raise e =>
          (image_found, opened,
           (msgs ++ [("JavaScript click failed: " ++ str_exn e)%string])%list)
      end
    else (image_found, opened, msgs) in
  let '(image_found, opened, msgs) :=
    if negb image_found then
      (true, Some ByHand,
       (msgs ++ ["Waiting for you to click on the first image and then click OK...";
                 "Continuing after manual interaction..."])%list)
    else (image_found, opened, msgs) in
  if negb image_found then
    Raise (OtherException "Could not open the first image.")
  else
    match opened with
    | Some w => Ok (w, msgs)
    | None => Raise (OtherException "Could not open the first image.")
    end.

(** Whether a selector finds something that can be clicked. *)
Definition works (env : string -> selector_env) (selector : string) : bool :=
  match found (env selector), click (env selector) with
  | Ok (S _), Ok _ => true
  | _, _ => false
  end.

End GuiFirstImage.

(** * Properties *)

(** ** The [--size] argument *)

Section SizeArgFacts.

Import SizeArg.
















Lemma split_on_app (sep : ascii) (a b : string) :
  all_chars (not_sep sep) a = true ->
  split_on sep (a ++ String sep b) = a :: split_on sep b.
Proof.
  induction a as [|c r IH]; simpl.
  - intros _. now rewrite Ascii.eqb_refl.
  - intros H. apply andb_true_iff in H as [Hc Hr].
    apply negb_true_iff in Hc. rewrite Hc, (IH Hr). reflexivity.
Qed.






Lemma int_raises_ValueError (s : string) (e : exn) :
  int s = Raise e -> is_ValueError e = true.
Proof.
  unfold int. destruct (parse_int s); intros H; [discriminate|].
  injection H as <-. reflexivity.
Qed.

Lemma unpack2_raises_ValueError (parts : list string) (e : exn) :
  unpack2_map_int parts = Raise e -> is_ValueError e = true.
Proof.
  unfold unpack2_map_int.
  destruct parts as [|a [|b [|c rest]]];
    repeat match goal with
      | |- context [int ?s] =>
          let E := fresh "E" in
          destruct (int s) eqn:E;
          [|intros H; injection H as <-; eapply int_raises_ValueError; eauto]
      end;
    intros H; try discriminate; injection H as <-; reflexivity.
Qed.











End SizeArgFacts.

(** ** The producer *)

Section ProducerFacts.

Import SafeCrawler.

Variable b : base_class.

Lemma iteration_stop_requested (e : iter_env) (flag : Z) (c : crawler) :
  flag = 0 \/ should_exit c = true ->
  ctl (iteration b e flag c) = Return
  /\ flag_after (iteration b e flag c) = flag
  /\ driver_closed (crawler_after (iteration b e flag c)) = true
  /\ put_item (iteration b e flag c) = None.
Proof.
  intros H. unfold iteration.
  assert (((flag =? 0) || should_exit c)%bool = true) as ->.
  { destruct H as [-> | ->]; [reflexivity | apply orb_true_r]. }
  simpl. repeat split; solve [reflexivity | assumption].
Qed.

Lemma running_guard (flag : Z) (c : crawler) :
  flag <> 0 -> should_exit c = false ->
  ((flag =? 0) || should_exit c)%bool = false.
Proof.
  intros Hf Hs. rewrite Hs, orb_false_r. now apply Z.eqb_neq.
Qed.

(** A pass whose body succeeds. *)
Lemma iteration_success (e : iter_env) (flag : Z) (c : crawler) :
  flag <> 0 -> should_exit c = false -> raises b e = false ->
  ctl (iteration b e flag c) = Continue
  /\ flag_after (iteration b e flag c) = flag
  /\ consecutive_errors (crawler_after (iteration b e flag c)) = 0
  /\ max_errors (crawler_after (iteration b e flag c)) = max_errors c
  /\ should_exit (crawler_after (iteration b e flag c)) = false
  /\ driver_closed (crawler_after (iteration b e flag c)) = driver_closed c
  /\ slept (crawler_after (iteration b e flag c)) = slept c.
Proof.
  intros Hf Hs Hr. unfold iteration. rewrite running_guard by assumption.
  unfold raises in Hr. destruct (try_body b e) as [item [x|]]; [discriminate|].
  simpl. repeat split; solve [reflexivity | assumption].
Qed.

(** A pass whose body raises, below the budget. *)
Lemma iteration_failure_below (e : iter_env) (flag : Z) (c : crawler) :
  flag <> 0 -> should_exit c = false -> raises b e = true ->
  consecutive_errors c + 1 < max_errors c ->
  ctl (iteration b e flag c) = Continue
  /\ flag_after (iteration b e flag c) = flag
  /\ consecutive_errors (crawler_after (iteration b e flag c))
     = consecutive_errors c + 1
  /\ max_errors (crawler_after (iteration b e flag c)) = max_errors c
  /\ should_exit (crawler_after (iteration b e flag c)) = false
  /\ driver_closed (crawler_after (iteration b e flag c)) = driver_closed c
  /\ slept (crawler_after (iteration b e flag c)) = slept c + 2.
Proof.
  intros Hf Hs Hr Hlt. unfold iteration. rewrite running_guard by assumption.
  unfold raises in Hr. destruct (try_body b e) as [item [x|]]; [|discriminate].
  cbn [log set_consecutive_errors max_errors consecutive_errors].
  destruct (Z.leb_spec (max_errors c) (consecutive_errors c + 1)); [lia|].
  simpl. repeat split; solve [reflexivity | assumption].
Qed.

(** A pass whose body raises and exhausts the budget. *)
Lemma iteration_failure_last (e : iter_env) (flag : Z) (c : crawler) :
  flag <> 0 -> should_exit c = false -> raises b e = true ->
  max_errors c <= consecutive_errors c + 1 ->
  ctl (iteration b e flag c) = Return
  /\ flag_after (iteration b e flag c) = 0
  /\ should_exit (crawler_after (iteration b e flag c)) = true
  /\ driver_closed (crawler_after (iteration b e flag c)) = true
  /\ slept (crawler_after (iteration b e flag c)) = slept c.
Proof.
  intros Hf Hs Hr Hle. unfold iteration. rewrite running_guard by assumption.
  unfold raises in Hr. destruct (try_body b e) as [item [x|]]; [|discriminate].
  cbn [log set_consecutive_errors max_errors consecutive_errors].
  destruct (Z.leb_spec (max_errors c) (consecutive_errors c + 1)); [|lia].
  simpl. repeat split; solve [reflexivity | assumption].
Qed.

Lemma loop_continue (e : iter_env) (rest : list iter_env) (flag : Z)
    (c : crawler) :
  ctl (iteration b e flag c) = Continue ->
  loop b (e :: rest) flag c
  = let s := iteration b e flag c in
    let o := loop b rest (flag_after s) (crawler_after s) in
    {| flag_final := flag_final o; crawler_final := crawler_final o;
       ended := ended o; puts := item_list (put_item s) ++ puts o;
       passes := S (passes o) |}.
Proof. intros H. cbn [loop]. now rewrite H. Qed.

Lemma loop_return (e : iter_env) (rest : list iter_env) (flag : Z)
    (c : crawler) :
  ctl (iteration b e flag c) = Return ->
  loop b (e :: rest) flag c
  = let s := iteration b e flag c in
    {| flag_final := flag_after s; crawler_final := crawler_after s;
       ended := Return; puts := item_list (put_item s); passes := 1 |}.
Proof. intros H. cbn [loop]. now rewrite H. Qed.

(** Failures that stay below the budget: the loop goes on, having slept two
    seconds after each. *)
Lemma loop_failures_below (es : list iter_env) :
  forall (flag : Z) (c : crawler),
  flag <> 0 -> should_exit c = false ->
  forallb (raises b) es = true ->
  consecutive_errors c + Z.of_nat (length es) < max_errors c ->
  let o := loop b es flag c in
  ended o = Continue /\ flag_final o = flag
  /\ consecutive_errors (crawler_final o)
     = consecutive_errors c + Z.of_nat (length es)
  /\ max_errors (crawler_final o) = max_errors c
  /\ should_exit (crawler_final o) = false
  /\ driver_closed (crawler_final o) = driver_closed c
  /\ slept (crawler_final o) = slept c + 2 * Z.of_nat (length es)
  /\ passes o = length es.
Proof.
  induction es as [|e rest IH]; intros flag c Hf Hs Hall Hlt.
  - simpl. repeat split; solve [reflexivity | assumption | lia].
  - cbn [forallb] in Hall. apply andb_true_iff in Hall as [He Hrest].
    cbn [length] in Hlt.
    destruct (iteration_failure_below e flag c Hf Hs He ltac:(lia))
      as (Hc & Hfl & Hce & Hme & Hse & Hdc & Hsl).
    rewrite (loop_continue e rest flag c Hc). cbn zeta.
    specialize (IH (flag_after (iteration b e flag c))
                   (crawler_after (iteration b e flag c))).
    rewrite Hfl, Hse, Hce, Hme in IH.
    destruct (IH Hf eq_refl Hrest ltac:(lia))
      as (H1 & H2 & H3 & H4 & H5 & H6 & H7 & H8).
    cbn [ended flag_final crawler_final passes length].
    rewrite Hfl. repeat split; try assumption; try lia; congruence.
Qed.

(** Failures up to the budget: the last one ends [run]. *)
Lemma loop_failures_exhaust (es : list iter_env) :
  forall (flag : Z) (c : crawler),
  flag <> 0 -> should_exit c = false ->
  forallb (raises b) es = true ->
  es <> [] ->
  consecutive_errors c + Z.of_nat (length es) = max_errors c ->
  let o := loop b es flag c in
  ended o = Return /\ flag_final o = 0
  /\ should_exit (crawler_final o) = true
  /\ driver_closed (crawler_final o) = true
  /\ slept (crawler_final o) = slept c + 2 * (Z.of_nat (length es) - 1)
  /\ passes o = length es.
Proof.
  induction es as [|e rest IH]; intros flag c Hf Hs Hall Hne Hlen;
    [congruence|].
  cbn [forallb] in Hall. apply andb_true_iff in Hall as [He Hrest].
  cbn [length] in Hlen.
  destruct rest as [|e' rest'].
  - destruct (iteration_failure_last e flag c Hf Hs He ltac:(simpl in Hlen; lia))
      as (Hc & Hfl & Hse & Hdc & Hsl).
    rewrite (loop_return e [] flag c Hc). cbn. repeat split; try assumption. lia.
  - destruct (iteration_failure_below e flag c Hf Hs He
                ltac:(cbn [length] in Hlen; lia))
      as (Hc & Hfl & Hce & Hme & Hse & Hdc & Hsl).
    rewrite (loop_continue e (e' :: rest') flag c Hc). cbn zeta.
    specialize (IH (flag_after (iteration b e flag c))
                   (crawler_after (iteration b e flag c))).
    rewrite Hfl, Hse, Hce, Hme in IH.
    destruct (IH Hf eq_refl Hrest ltac:(congruence) ltac:(lia))
      as (H1 & H2 & H3 & H4 & H5 & H6).
    cbn [ended flag_final crawler_final passes].
    rewrite Hfl.
    cbn [length] in *. repeat split; try assumption; try lia; congruence.
Qed.


Lemma loop_app (es es' : list iter_env) :
  forall (flag : Z) (c : crawler),
  ended (loop b es flag c) = Continue ->
  let o := loop b es flag c in
  let o' := loop b es' (flag_final o) (crawler_final o) in
  ended (loop b (es ++ es') flag c) = ended o'
  /\ flag_final (loop b (es ++ es') flag c) = flag_final o'
  /\ crawler_final (loop b (es ++ es') flag c) = crawler_final o'.
Proof.
  induction es as [|e rest IH]; intros flag c H; [simpl; auto|].
  destruct (ctl (iteration b e flag c)) eqn:Hc.
  - rewrite (loop_continue e rest flag c Hc) in *. cbn zeta in *.
    cbn [ended flag_final crawler_final] in *.
    change ((e :: rest) ++ es')%list with (e :: (rest ++ es')).
    rewrite (loop_continue e (rest ++ es') flag c Hc). cbn zeta.
    cbn [ended flag_final crawler_final]. now apply IH.
  - rewrite (loop_return e rest flag c Hc) in H. discriminate H.
Qed.

(** C1, as amended.  For a budget [N] of at least one: [N] failing passes in
    a row, from a counter at 0 and with the flag raised, lower the flag,
    close the session and end [run]; fewer than [N] leave the loop going,
    the flag raised and the session open, after a sleep of two seconds for
    each; a pass that succeeds puts the counter back to 0, also after such
    failures. *)
Theorem error_budget_supervision (N flag : Z) (c : crawler) :
  1 <= N -> max_errors c = N -> consecutive_errors c = 0 ->
  should_exit c = false -> flag <> 0 ->
  (forall es, forallb (raises b) es = true -> Z.of_nat (length es) = N ->
     let o := loop b es flag c in
     ended o = Return /\ flag_final o = 0
     /\ driver_closed (crawler_final o) = true
     /\ passes o = length es)
  /\ (forall es, forallb (raises b) es = true -> Z.of_nat (length es) < N ->
     let o := loop b es flag c in
     ended o = Continue /\ flag_final o = flag
     /\ driver_closed (crawler_final o) = driver_closed c
     /\ consecutive_errors (crawler_final o) = Z.of_nat (length es)
     /\ slept (crawler_final o) = slept c + 2 * Z.of_nat (length es))
  /\ (forall e c', should_exit c' = false -> raises b e = false ->
     let s := iteration b e flag c' in
     ctl s = Continue /\ flag_after s = flag
     /\ consecutive_errors (crawler_after s) = 0)
  /\ (forall es e, forallb (raises b) es = true -> Z.of_nat (length es) < N ->
     raises b e = false ->
     let o := loop b (es ++ [e]) flag c in
     ended o = Continue /\ flag_final o = flag
     /\ consecutive_errors (crawler_final o) = 0).
Proof.
  intros HN Hmax Hce Hse Hf.
  split; [|split; [|split]].
  - intros es Hall Hlen.
    destruct (loop_failures_exhaust es flag c Hf Hse Hall)
      as (? & ? & ? & ? & ? & ?); [intros ->; simpl in Hlen; lia | lia |].
    cbn zeta. auto.
  - intros es Hall Hlen.
    destruct (loop_failures_below es flag c Hf Hse Hall)
      as (? & ? & ? & ? & ? & ? & ? & ?); [lia|].
    cbn zeta. repeat split; try assumption; lia.
  - intros e c' Hs' He.
    destruct (iteration_success e flag c' Hf Hs' He) as (? & ? & ? & _).
    cbn zeta. auto.
  - intros es e Hall Hlen He.
    destruct (loop_failures_below es flag c Hf Hse Hall)
      as (Hc & Hfl & _ & _ & Hs' & _); [lia|].
    destruct (loop_app es [e] flag c Hc) as (E1 & E2 & E3).
    cbn zeta. rewrite E1, E2, E3, Hfl.
    destruct (iteration_success e flag
                (crawler_final (loop b es flag c)) Hf Hs' He)
      as (Hc' & Hfl' & Hz & _).
    rewrite (loop_continue e [] flag _ Hc'). cbn. auto.
Qed.


Lemma starts_with_dunder_inv (n : string) :
  starts_with_dunder n = true -> exists r, n = String "_" (String "_" r).
Proof.
  destruct n as [|a n']; [discriminate|].
  destruct a as [[] [] [] [] [] [] [] []]; try discriminate.
  destruct n' as [|a' r]; [discriminate|].
  destruct a' as [[] [] [] [] [] [] [] []]; try discriminate.
  intros _. now exists r.
Qed.

Lemma mangle_base_not_first_preview (n : string) :
  String.eqb first_preview (mangle "YandexCrawler" n)
  = String.eqb first_preview n.
Proof.
  unfold mangle.
  destruct (starts_with_dunder n && negb (ends_with_dunder n))%bool eqn:E;
    [|reflexivity].
  apply andb_true_iff in E as [E _].
  apply starts_with_dunder_inv in E as [r ->]. reflexivity.
Qed.

Lemma in_names_mangled_base (l : list string) :
  in_names first_preview (List.map (mangle "YandexCrawler") l)
  = in_names first_preview l.
Proof.
  unfold in_names. induction l as [|n l IH]; [reflexivity|].
  cbn [List.map existsb]. now rewrite mangle_base_not_first_preview, IH.
Qed.

Lemma first_preview_unbound :
  in_names first_preview (base_body b) = false ->
  in_names first_preview (base_self b) = false ->
  getattr (instance_attrs b) (mro b) first_preview
  = Raise (AttributeError "SafeYandexCrawler" first_preview).
Proof.
  intros Hbody Hself. unfold getattr, instance_attrs.
  assert (in_names first_preview
            (List.map (mangle "YandexCrawler") (base_self b) ++
             List.map (mangle "SafeYandexCrawler")
               ["consecutive_errors"; "max_errors"]) = false) as ->.
  { unfold in_names. rewrite existsb_app.
    fold (in_names first_preview (List.map (mangle "YandexCrawler") (base_self b))).
    rewrite in_names_mangled_base, Hself. reflexivity. }
  unfold mro. cbn [mro_lookup].
  assert (in_names first_preview (cls_dict SafeYandexCrawler) = false) as ->
    by reflexivity.
  unfold cls_dict, YandexCrawler. cbn [cls_name cls_body].
  now rewrite in_names_mangled_base, Hbody.
Qed.

(** The fatal branch of [run_init]. *)
Lemma run_fatal (first : result unit) (es : list iter_env) (flag : Z)
    (c : crawler) (e : exn) :
  call_method b first_preview first = Raise e ->
  let o := run b first es flag c in
  ended o = Return /\ flag_final o = 0
  /\ driver_closed (crawler_final o) = true
  /\ should_exit (crawler_final o) = true
  /\ logged (crawler_final o)
     = (logged c
        ++ [(CRITICAL, ("Process #" ++ str_int (id c)
                        ++ " can't open the first image: " ++ str_exn e)%string);
            (INFO, "Exiting crawler due to initial error")])%list
  /\ passes o = 0%nat /\ puts o = [] /\ slept (crawler_final o) = slept c.
Proof.
  intros H. unfold run, run_init. fold first_preview. rewrite H.
  cbn. rewrite <- app_assoc. repeat split; reflexivity.
Qed.


(** C4.  Whatever exception the opening of the first preview raises, [run]
    logs it, lowers the flag, closes the session and returns: no pass of
    the loop is made and nothing is put on the queue. *)
Theorem first_preview_failure_is_fatal (first : result unit)
    (es : list iter_env) (flag : Z) (c : crawler) (e : exn) :
  call_method b first_preview first = Raise e ->
  let o := run b first es flag c in
  ended o = Return /\ flag_final o = 0
  /\ driver_closed (crawler_final o) = true
  /\ logged (crawler_final o)
     = (logged c
        ++ [(CRITICAL, ("Process #" ++ str_int (id c)
                        ++ " can't open the first image: " ++ str_exn e)%string);
            (INFO, "Exiting crawler due to initial error")])%list
  /\ passes o = 0%nat /\ puts o = [] /\ slept (crawler_final o) = slept c.
Proof.
  intros H. destruct (run_fatal first es flag c e H)
    as (? & ? & ? & ? & ? & ? & ? & ?).
  cbn zeta. repeat split; assumption.
Qed.

(** C2, as amended.  When neither the body of the base class nor its
    constructor binds the name [_SafeYandexCrawler__open_first_preview] as
    such, the lookup in [run] raises [AttributeError], whatever the method
    of the base class would do; the private method of the base class
    answers to [_YandexCrawler__open_first_preview].  So every call of [run]
    in which [driver.get] returns takes the fatal branch: the flag is
    lowered, the session closed, no pass of the loop is made and nothing is
    put on the queue.  A call in which [driver.get] raises is left by that
    exception, the flag and the producer as they were. *)
Theorem run_never_reaches_the_loop (get first : result unit)
    (es : list iter_env) (flag : Z) (c : crawler) :
  in_names first_preview (base_body b) = false ->
  in_names first_preview (base_self b) = false ->
  mangle "YandexCrawler" "__open_first_preview"
  = "_YandexCrawler__open_first_preview"
  /\ mro_lookup first_preview [SafeYandexCrawler] = None
  /\ call_method b first_preview first
     = Raise (AttributeError "SafeYandexCrawler" first_preview)
  /\ (forall u, get = Ok u ->
        exists o,
          returned (run_call b get first es flag c) = Ok o
          /\ ended o = Return /\ passes o = 0%nat /\ puts o = []
          /\ flag_left (run_call b get first es flag c) = 0
          /\ driver_closed (crawler_left (run_call b get first es flag c))
             = true
          /\ logged (crawler_left (run_call b get first es flag c))
             = (logged c
                ++ [(CRITICAL,
                     ("Process #" ++ str_int (id c)
                      ++ " can't open the first image: "
                      ++ "'SafeYandexCrawler' object has no attribute '"
                      ++ "_SafeYandexCrawler__open_first_preview'")%string);
                    (INFO, "Exiting crawler due to initial error")])%list)
  /\ (forall e, get = Raise e ->
        returned (run_call b get first es flag c) = Raise e
        /\ flag_left (run_call b get first es flag c) = flag
        /\ crawler_left (run_call b get first es flag c) = c).
Proof.
  intros Hbody Hself.
  assert (call_method b first_preview first
          = Raise (AttributeError "SafeYandexCrawler" first_preview)) as Hcall.
  { unfold call_method. now rewrite first_preview_unbound. }
  split; [reflexivity|]. split; [reflexivity|]. split; [exact Hcall|].
  split.
  - intros u ->. cbn [run_call returned flag_left crawler_left].
    destruct (run_fatal first es flag c _ Hcall)
      as (H1 & H2 & H3 & _ & H5 & H6 & H7 & _).
    cbn zeta in *. eexists. split; [reflexivity|].
    repeat split; assumption.
  - intros e ->. cbn. repeat split.
Qed.

End ProducerFacts.

Section ProducerWitnesses.

Import SafeCrawler.

Lemma error_budget_supervision_witness :
  (forall es, forallb (raises packaged_base) es = true ->
     Z.of_nat (length es) = 3 ->
     let o := loop packaged_base es 1 (new_crawler "https://yandex.com/images/search?text=cat" 0 3) in
     ended o = Return /\ flag_final o = 0
     /\ driver_closed (crawler_final o) = true
     /\ passes o = length es)
  /\ ended (loop packaged_base [failing_pass; failing_pass; failing_pass] 1
             (new_crawler "https://yandex.com/images/search?text=cat" 0 3))
     = Return.
Proof.
  pose proof (error_budget_supervision packaged_base 3 1
    (new_crawler "https://yandex.com/images/search?text=cat" 0 3)
    ltac:(lia) eq_refl eq_refl eq_refl ltac:(lia)) as (H & _).
  split; [exact H|].
  apply (H [failing_pass; failing_pass; failing_pass]); reflexivity.
Defined.

(** C1 as stated fails for a budget of 0: it is not so that for whatever
    budget [N], [N] failing passes in a row end [run] with the flag lowered.
    With [max_errors = 0] no failure has happened, which is as many as the
    budget counts, and the producer goes on with the flag raised and the
    session open, also through a pass that succeeds and puts its item on
    the queue. *)
Lemma error_budget_zero_counterexample :
  ~ (forall (N flag : Z) (c : crawler) (es : list iter_env),
        max_errors c = N -> consecutive_errors c = 0 ->
        should_exit c = false -> flag <> 0 ->
        forallb (raises packaged_base) es = true ->
        Z.of_nat (length es) = N ->
        let o := loop packaged_base es flag c in
        ended o = Return /\ flag_final o = 0
        /\ driver_closed (crawler_final o) = true)
  /\ (let c := new_crawler "https://yandex.com/images/search?text=cat" 0 0 in
      let o := loop packaged_base
                 (repeat failing_pass (Z.to_nat (max_errors c))) 1 c in
      let o1 := loop packaged_base [good_pass] 1 c in
      (ended o = Continue /\ flag_final o = 1
       /\ driver_closed (crawler_final o) = false)
      /\ (ended o1 = Continue /\ flag_final o1 = 1
          /\ driver_closed (crawler_final o1) = false
          /\ length (puts o1) = 1%nat)).
Proof.
  split.
  - intros H.
    specialize (H 0 1 (new_crawler "https://yandex.com/images/search?text=cat" 0 0)
                  [] eq_refl eq_refl eq_refl ltac:(discriminate) eq_refl eq_refl).
    cbn in H. destruct H as [H _]. discriminate H.
  - vm_compute. repeat split; reflexivity.
Qed.

(** C2 as stated fails for a call of [run] whose [driver.get] raises, as it
    does for a start link that is no link: the call is left by that
    exception, the fatal branch not taken, the flag still raised and the
    session not closed. *)
Lemma driver_get_failure_counterexample :
  let r := run_call packaged_base
             (Raise (OtherException "invalid argument")) (Ok tt)
             [good_pass] 1 (new_crawler "httpfoo" 0 10) in
  returned r = Raise (OtherException "invalid argument")
  /\ flag_left r = 1
  /\ driver_closed (crawler_left r) = false
  /\ logged (crawler_left r) = [].
Proof. vm_compute. repeat split; reflexivity. Qed.

Lemma first_preview_failure_is_fatal_witness :
  call_method obliging_base first_preview
    (Raise (OtherException "no such element") : result unit)
  = Raise (OtherException "no such element")
  /\ (let o := run obliging_base (Raise (OtherException "no such element"))
                 [good_pass] 1
                 (new_crawler "https://yandex.com/images/search?text=cat" 0 10) in
      ended o = Return /\ flag_final o = 0
      /\ driver_closed (crawler_final o) = true /\ passes o = 0%nat).
Proof.
  split; [reflexivity|].
  destruct (first_preview_failure_is_fatal obliging_base
              (Raise (OtherException "no such element")) [good_pass] 1
              (new_crawler "https://yandex.com/images/search?text=cat" 0 10)
              (OtherException "no such element") eq_refl)
    as (H1 & H2 & H3 & _ & H4 & _).
  cbn zeta. repeat split; assumption.
Defined.

Lemma run_never_reaches_the_loop_witness :
  getattr (instance_attrs packaged_base) (mro packaged_base)
    "_YandexCrawler__open_first_preview" = Ok (InClass "YandexCrawler")
  /\ (let r := run_call packaged_base (Ok tt) (Ok tt) [good_pass; good_pass] 1
                 (new_crawler "https://yandex.com/images/search?text=cat" 0 10) in
      exists o, returned r = Ok o /\ ended o = Return /\ passes o = 0%nat
                /\ puts o = [] /\ flag_left r = 0
                /\ driver_closed (crawler_left r) = true).
Proof.
  split; [reflexivity|].
  destruct (run_never_reaches_the_loop packaged_base (Ok tt) (Ok tt)
              [good_pass; good_pass] 1
              (new_crawler "https://yandex.com/images/search?text=cat" 0 10)
              eq_refl eq_refl)
    as (_ & _ & _ & H & _).
  destruct (H tt eq_refl) as (o & H1 & H2 & H3 & H4 & H5 & H6 & _).
  cbn zeta. exists o. repeat split; assumption.
Defined.

End ProducerWitnesses.

(** ** The processes of a run *)

Section SystemFacts.

Import SafeCrawler SafeDownload.

Variable b : base_class.
Variable cfg : SafeDownload.config.

(** A write of the flag by a producer lowers it. *)
Lemma run_init_flag (first : result unit) (f : Z) (c : crawler) :
  flag_after (run_init b first f c) = f \/ flag_after (run_init b first f c) = 0.
Proof.
  unfold run_init.
  destruct (call_method b (written_here "_SafeYandexCrawler__open_first_preview") first);
    simpl; auto.
Qed.

Lemma iteration_flag (e : iter_env) (f : Z) (c : crawler) :
  flag_after (iteration b e f c) = f \/ flag_after (iteration b e f c) = 0.
Proof.
  unfold iteration.
  destruct ((f =? 0) || SafeCrawler.should_exit c)%bool; [simpl; auto|].
  destruct (try_body b e) as [item [x|]]; [|simpl; auto].
  match goal with |- context [if ?g then _ else _] => destruct g end;
    simpl; auto.
Qed.

Lemma monitor_pass_flag (e : monitor_env) (f : Z) (m : parent) :
  (monitor_pass cfg e f m).1.1 = f \/ (monitor_pass cfg e f m).1.1 = 0.
Proof.
  unfold monitor_pass.
  repeat match goal with
         | |- context [if ?g then _ else _] => destruct g
         end; simpl; auto.
Qed.

Lemma monitor_pass_leaves_lowered (e : monitor_env) (f : Z) (m : parent)
    (why : leave) :
  (monitor_pass cfg e f m).2 = Leave why -> why <> NoLiveProcess ->
  (monitor_pass cfg e f m).1.1 = 0.
Proof.
  unfold monitor_pass.
  repeat match goal with
         | |- context [if ?g then _ else _] => destruct g
         end; simpl; intros H Hw; try reflexivity; congruence.
Qed.

Lemma checker_pass_flag (files f : Z) :
  checker_pass cfg files f = f \/ checker_pass cfg files f = 0.
Proof. unfold checker_pass. destruct (_ && _)%bool; auto. Qed.

Lemma producer_step_flag (i : nat) (first : result unit) (e : iter_env)
    (s : system) :
  is_active (producer_step b i first e s) = is_active s
  \/ is_active (producer_step b i first e s) = 0.
Proof.
  unfold producer_step.
  destruct (producers s !! i) as [[c []]|]; auto.
  - apply run_init_flag.
  - destruct (put_item (iteration b e (is_active s) c)) as [x|].
    + destruct (put x (load_queue s)); auto. apply iteration_flag.
    + apply iteration_flag.
Qed.

Lemma step_system_flag (ev : event) (s : system) :
  is_active (step_system b cfg ev s) = is_active s
  \/ is_active (step_system b cfg ev s) = 0.
Proof.
  destruct ev as [i first e| |files| |e|alive files]; cbn [step_system].
  - apply producer_step_flag.
  - destruct (get (load_queue s)) as [[x q]|]; auto.
  - apply checker_pass_flag.
  - simpl. auto.
  - destruct (finalized s); auto.
    pose proof (monitor_pass_flag e (is_active s) (orchestrator s)) as H.
    destruct (monitor_pass cfg e (is_active s) (orchestrator s)) as [[f m] ctl'].
    exact H.
  - destruct (finalized s); simpl; auto.
Qed.

Lemma exec_app (evs evs' : list event) (s : system) :
  exec b cfg (evs ++ evs') s = exec b cfg evs' (exec b cfg evs s).
Proof. unfold exec. apply fold_left_app. Qed.

Lemma exec_stays_lowered (evs : list event) :
  forall s, is_active s = 0 -> is_active (exec b cfg evs s) = 0.
Proof.
  induction evs as [|ev rest IH]; intros s H; [exact H|].
  cbn [exec fold_left]. apply IH.
  destruct (step_system_flag ev s) as [E|E]; congruence.
Qed.

Lemma exec_flag_is_bool (evs : list event) :
  forall s, (is_active s = 1 \/ is_active s = 0) ->
  is_active (exec b cfg evs s) = 1 \/ is_active (exec b cfg evs s) = 0.
Proof.
  induction evs as [|ev rest IH]; intros s H; [exact H|].
  cbn [exec fold_left]. apply IH.
  destruct (step_system_flag ev s) as [E|E]; rewrite E; auto.
Qed.

(** C3.  The flag starts at 1 ([True]); a step of any process leaves it as
    it is or sets it to 0 ([False]); the signal handler, the [finally]
    block, every way the monitoring loop is left on request, time-out or
    interrupt, and both ways a producer gives up write 0; so in every run,
    once the flag is 0 it is 0 at every later point, and it is 1 or 0
    throughout. *)
Theorem liveness_flag_only_falls (now : Q) :
  is_active (start cfg now) = 1
  /\ (forall ev s,
        is_active (step_system b cfg ev s) = is_active s
        \/ is_active (step_system b cfg ev s) = 0)
  /\ (forall f m, (signal_handler f m).1 = 0)
  /\ (forall alive files f m, (finalizer cfg alive files f m).1 = 0)
  /\ (forall e f m why,
        (monitor_pass cfg e f m).2 = Leave why -> why <> NoLiveProcess ->
        (monitor_pass cfg e f m).1.1 = 0)
  /\ (forall first f c,
        ctl (run_init b first f c) = Return ->
        flag_after (run_init b first f c) = 0)
  /\ (forall e f c,
        f <> 0 -> SafeCrawler.should_exit c = false ->
        ctl (iteration b e f c) = Return ->
        flag_after (iteration b e f c) = 0)
  /\ (forall evs evs',
        is_active (exec b cfg evs (start cfg now)) = 0 ->
        is_active (exec b cfg (evs ++ evs') (start cfg now)) = 0)
  /\ (forall evs,
        is_active (exec b cfg evs (start cfg now)) = 1
        \/ is_active (exec b cfg evs (start cfg now)) = 0).
Proof.
  split; [reflexivity|].
  split; [apply step_system_flag|].
  split; [reflexivity|].
  split; [reflexivity|].
  split; [apply monitor_pass_leaves_lowered|].
  split.
  { intros first f c. unfold run_init.
    destruct (call_method b (written_here "_SafeYandexCrawler__open_first_preview") first);
      simpl; [discriminate | reflexivity]. }
  split.
  { intros e f c Hf Hs. unfold iteration.
    rewrite running_guard by assumption.
    destruct (try_body b e) as [item [x|]]; [|simpl; discriminate].
    match goal with |- context [if ?g then _ else _] => destruct g end;
      simpl; [reflexivity | discriminate]. }
  split.
  { intros evs evs' H. rewrite exec_app. now apply exec_stays_lowered. }
  intros evs. apply exec_flag_is_bool. left. reflexivity.
Qed.

(** *** The queue *)

Lemma spawn_length (ls : list string) :
  forall i m, length (spawn ls i m) = length ls.
Proof.
  induction ls as [|l rest IH]; intros i m; simpl; [reflexivity|].
  now rewrite IH.
Qed.

Lemma put_grows (x : work_item) (q q' : queue) :
  put x q = Some q' ->
  maxsize q' = maxsize q /\ qsize q' = qsize q + 1 /\ qsize q < maxsize q.
Proof.
  unfold put, full.
  destruct (Z.leb_spec (maxsize q) (qsize q)) as [Hfull|Hroom]; [discriminate|].
  intros E. injection E as <-. unfold qsize in *. cbn [maxsize items].
  rewrite length_app. cbn [length]. repeat split; lia.
Qed.

Lemma get_shrinks (x : work_item) (q q' : queue) :
  get q = Some (x, q') -> maxsize q' = maxsize q /\ qsize q' <= qsize q.
Proof.
  unfold get. destruct (items q) as [|y rest] eqn:E; [discriminate|].
  intros E'. injection E' as <- <-. unfold qsize. rewrite E. cbn. split; lia.
Qed.

Lemma commit_queue_inv (i : nat) (st : step) (q : queue) (s : system) :
  queue_inv cfg s ->
  maxsize q = maxsize (load_queue s) -> qsize q <= 10 * proc_num cfg ->
  queue_inv cfg (commit i st q s).
Proof.
  intros (Hm & Hq & Hl) Hm' Hq'. unfold queue_inv, commit.
  cbn [load_queue producers]. rewrite length_insert. repeat split; congruence || assumption.
Qed.

Lemma step_system_queue_inv (ev : event) (s : system) :
  queue_inv cfg s -> queue_inv cfg (step_system b cfg ev s).
Proof.
  intros Hinv. pose proof Hinv as (Hm & Hq & Hl).
  destruct ev as [i first e| |files| |e|alive files]; cbn [step_system].
  - unfold producer_step.
    destruct (producers s !! i) as [[c []]|] eqn:Hi; try assumption.
    + apply commit_queue_inv; auto.
    + destruct (put_item (iteration b e (is_active s) c)) as [x|];
        [|apply commit_queue_inv; auto].
      destruct (put x (load_queue s)) as [q|] eqn:Hput; [|assumption].
      apply put_grows in Hput as (Hm' & Hs' & Hlt).
      apply commit_queue_inv; auto.
      apply lookup_lt_Some in Hi. rewrite Hl in Hi.
      rewrite Hm in Hlt. unfold Queue, proc_num in *. cbn [maxsize] in Hlt.
      destruct (Z.leb_spec (10 * Z.of_nat (length (links cfg))) 0); lia.
  - destruct (get (load_queue s)) as [[x q]|] eqn:Hget; [|assumption].
    apply get_shrinks in Hget as (Hm' & Hs').
    unfold queue_inv. cbn [load_queue producers]. repeat split; congruence || lia.
  - exact Hinv.
  - exact Hinv.
  - destruct (finalized s); [assumption|].
    destruct (monitor_pass cfg e (is_active s) (orchestrator s)) as [[f m] c'].
    exact Hinv.
  - destruct (finalized s); [assumption|]. exact Hinv.
Qed.

Lemma exec_queue_inv (evs : list event) :
  forall s, queue_inv cfg s -> queue_inv cfg (exec b cfg evs s).
Proof.
  induction evs as [|ev rest IH]; intros s H; [exact H|].
  cbn [exec fold_left]. apply IH. now apply step_system_queue_inv.
Qed.

(** C9.  The queue is made by [Queue(10 * len(links))]: with at least one
    link its bound is ten per link, a [put] on a queue at its bound has to
    wait, and at no point of any run does the queue hold more than ten items
    per link. *)
Theorem work_queue_bounded (now : Q) (evs : list event) :
  load_queue (start cfg now) = Queue (10 * Z.of_nat (length (links cfg)))
  /\ (links cfg <> [] ->
      maxsize (load_queue (start cfg now)) = 10 * Z.of_nat (length (links cfg)))
  /\ (forall x q, maxsize q <= qsize q -> put x q = None)
  /\ maxsize (load_queue (exec b cfg evs (start cfg now)))
     = maxsize (load_queue (start cfg now))
  /\ qsize (load_queue (exec b cfg evs (start cfg now)))
     <= 10 * Z.of_nat (length (links cfg)).
Proof.
  assert (queue_inv cfg (start cfg now)) as H0.
  { unfold queue_inv, start. cbn [load_queue producers].
    rewrite spawn_length. unfold qsize, Queue, proc_num. cbn. repeat split; lia. }
  pose proof (exec_queue_inv evs _ H0) as (Hm & Hq & _).
  split; [reflexivity|]. split.
  { intros Hne. unfold start, Queue. cbn [load_queue maxsize]. unfold proc_num.
    destruct (links cfg); [congruence|]. cbn [length].
    destruct (Z.leb_spec (10 * Z.of_nat (S (length l))) 0); lia. }
  split.
  { intros x q H. unfold put, full. apply Z.leb_le in H. now rewrite H. }
  split; [exact Hm|exact Hq].
Qed.

End SystemFacts.

(** ** The time-out of the monitoring loop *)

Section TimeoutFacts.

Import SafeDownload.

Variable cfg : SafeDownload.config.

Lemma Qlt_bool_iff (x y : Q) : Qlt_bool x y = true <-> (x < y)%Q.
Proof.
  unfold Qlt_bool. rewrite negb_true_iff. split.
  - intros H. apply Qnot_le_lt. intros Hle.
    apply Qle_bool_iff in Hle. congruence.
  - intros H. destruct (Qle_bool y x) eqn:E; [|reflexivity].
    apply Qle_bool_iff in E. exfalso. eapply Qlt_not_le; eauto.
Qed.

Lemma Qlt_bool_false (x y : Q) : Qlt_bool x y = false <-> (y <= x)%Q.
Proof.
  unfold Qlt_bool. rewrite negb_false_iff. apply Qle_bool_iff.
Qed.

(** A pass in which nothing else stops the loop: it leaves on time-out
    exactly when its reading of the clock is more than [timeout] after the
    start. *)
Lemma monitor_pass_quiet (e : monitor_env) (flag : Z) (m : parent) :
  flag <> 0 -> should_exit m = false ->
  keyboard_interrupt e = false -> any_alive e = true ->
  0 < timeout cfg ->
  let m1 := elapse (overhead e) m in
  ((inject_Z (timeout cfg) < elapsed m1)%Q ->
   exists m', monitor_pass cfg e flag m = (0, m', Leave TimedOut)
              /\ clock m' = clock m1 /\ start_time m' = start_time m)
  /\ ((elapsed m1 <= inject_Z (timeout cfg))%Q ->
      exists m', monitor_pass cfg e flag m = (flag, m', Go)
                 /\ clock m' = (clock m1 + 5)%Q
                 /\ start_time m' = start_time m
                 /\ should_exit m' = false).
Proof.
  intros Hf Hs Hk Ha HT m1. unfold monitor_pass. fold m1.
  rewrite Hk, Ha. cbn [negb].
  assert (should_exit m1 = false) as -> by exact Hs.
  assert ((flag =? 0) = false) as -> by now apply Z.eqb_neq.
  cbn [orb].
  assert ((0 <? timeout cfg) = true) as -> by now apply Z.ltb_lt.
  cbn [andb]. unfold elapsed. split; intros H.
  - apply Qlt_bool_iff in H. rewrite H. eexists. split; [reflexivity|].
    split; reflexivity.
  - apply Qlt_bool_false in H. rewrite H. eexists. split; [reflexivity|].
    repeat split; assumption.
Qed.

Lemma monitor_loop_quiet (delta : Q) (es : list monitor_env) :
  forall (flag : Z) (m : parent),
  0 < timeout cfg -> flag <> 0 -> should_exit m = false ->
  (elapsed m <= inject_Z (timeout cfg) + 5)%Q ->
  Forall (quiet delta) es ->
  match monitor_loop cfg es flag m with
  | (f, m', Leave TimedOut) =>
      f = 0
      /\ (inject_Z (timeout cfg) < elapsed m')%Q
      /\ (elapsed m' <= inject_Z (timeout cfg) + 5 + delta)%Q
  | (f, m', Go) =>
      f = flag /\ should_exit m' = false
      /\ (elapsed m' <= inject_Z (timeout cfg) + 5)%Q
      /\ (elapsed m + 5 * inject_Z (Z.of_nat (length es)) <= elapsed m')%Q
  | _ => False
  end.
Proof.
  induction es as [|e rest IH]; intros flag m HT Hf Hs Hstart Hall.
  - cbn. repeat split; try assumption.
    change (inject_Z (Z.of_nat 0)) with 0%Q. lra.
  - inversion Hall as [|e' rest' (Hk & Ha & Ho0 & Ho1) Hrest]; subst.
    destruct (monitor_pass_quiet e flag m Hf Hs Hk Ha HT) as [Hout Hgo].
    cbn zeta in Hout, Hgo. cbn [monitor_loop].
    destruct (Qlt_le_dec (inject_Z (timeout cfg)) (elapsed (elapse (overhead e) m)))
      as [Hlt|Hle].
    + destruct (Hout Hlt) as (m' & -> & Hc & Hst).
      unfold elapsed in *. rewrite Hc, Hst. cbn [elapse clock start_time] in *.
      repeat split; try assumption. lra.
    + destruct (Hgo Hle) as (m' & -> & Hc & Hst & Hs').
      assert (elapsed m' <= inject_Z (timeout cfg) + 5)%Q as Hstart'.
      { unfold elapsed in *. rewrite Hc, Hst.
        cbn [elapse clock start_time] in *. lra. }
      specialize (IH flag m' HT Hf Hs' Hstart' Hrest).
      destruct (monitor_loop cfg rest flag m') as [[f m''] [|[]]]; try assumption.
      destruct IH as (? & ? & ? & Hlow). repeat split; try assumption.
      cbn [length]. rewrite Nat2Z.inj_succ. unfold Z.succ. rewrite inject_Z_plus.
      unfold elapsed in *. rewrite Hc, Hst in Hlow.
      cbn [elapse clock start_time] in *.
      change (inject_Z 1) with 1%Q. lra.
Qed.

Lemma monitor_pass_no_timeout (e : monitor_env) (flag : Z) (m : parent) :
  timeout cfg <= 0 -> (monitor_pass cfg e flag m).2 <> Leave TimedOut.
Proof.
  intros HT. unfold monitor_pass.
  assert ((0 <? timeout cfg) = false) as -> by (apply Z.ltb_ge; lia).
  cbn [andb].
  repeat match goal with
         | |- context [if ?g then _ else _] => destruct g
         end; cbn; discriminate.
Qed.

Lemma monitor_loop_no_timeout (es : list monitor_env) :
  forall (flag : Z) (m : parent),
  timeout cfg <= 0 -> (monitor_loop cfg es flag m).2 <> Leave TimedOut.
Proof.
  induction es as [|e rest IH]; intros flag m HT; [cbn; discriminate|].
  cbn [monitor_loop].
  pose proof (monitor_pass_no_timeout e flag m HT) as H.
  destruct (monitor_pass cfg e flag m) as [[f m'] [|why]]; [now apply IH|].
  exact H.
Qed.


Lemma gui_iteration_timeout (sha : list Z -> string) (gcfg : Gui.config)
    (e : Gui.page_env) (g : Gui.gui) :
  Gui.stop_is_set e = false ->
  (Gui.iteration sha gcfg e g).2 = Gui.Break Gui.Timeout
  <-> 0 < Gui.timeout gcfg
      /\ (inject_Z (Gui.timeout gcfg) < Gui.now e - Gui.start_time gcfg)%Q.
Proof.
  intros Hstop. unfold Gui.iteration. rewrite Hstop.
  destruct (Z.ltb_spec 0 (Gui.timeout gcfg)) as [HT|HT]; cbn [andb].
  - destruct (Qlt_bool (inject_Z (Gui.timeout gcfg))
                (Gui.now e - Gui.start_time gcfg)) eqn:E.
    + apply Qlt_bool_iff in E. cbn. tauto.
    + apply Qlt_bool_false in E. split.
      * intros H. exfalso. revert H.
        destruct (_ && _)%bool; [cbn; discriminate|].
        destruct (Gui.try_body sha gcfg e g) as [g' [x|]]; [|cbn; discriminate].
        match goal with |- context [if ?c then _ else _] => destruct c end;
          cbn; discriminate.
      * intros [_ H]. exfalso. eapply Qlt_not_le; eauto.
  - split; [|lia].
    intros H. exfalso. revert H.
    destruct (_ && _)%bool; [cbn; discriminate|].
    destruct (Gui.try_body sha gcfg e g) as [g' [x|]]; [|cbn; discriminate].
    match goal with |- context [if ?c then _ else _] => destruct c end;
      cbn; discriminate.
Qed.

(** C8.  With a time-out [T] above 0 and nothing else stopping the loop (no
    interrupt, some child alive, the flag raised): a pass leaves the loop on
    time-out, lowering the flag, exactly when its reading of the clock is
    more than [T] after the start, and goes on to sleep 5 seconds otherwise;
    so the loop lowers the flag at the first such reading, which is at most
    [T + 5 + delta] after the start when a pass spends at most [delta]
    outside its sleep, and it does so within the passes whose sleeps add up
    to more than [T].  With a time-out of 0 the loop is never left on
    time-out.  The loop of the window stops on time-out by the same test. *)
Theorem timeout_lowers_flag (delta : Q) :
  (0 < timeout cfg ->
   (forall e flag m,
       flag <> 0 -> should_exit m = false ->
       keyboard_interrupt e = false -> any_alive e = true ->
       ((inject_Z (timeout cfg) < elapsed (elapse (overhead e) m))%Q ->
        (monitor_pass cfg e flag m).1.1 = 0
        /\ (monitor_pass cfg e flag m).2 = Leave TimedOut)
       /\ ((elapsed (elapse (overhead e) m) <= inject_Z (timeout cfg))%Q ->
           (monitor_pass cfg e flag m).1.1 = flag
           /\ (monitor_pass cfg e flag m).2 = Go))
   /\ (forall es flag m,
         flag <> 0 -> should_exit m = false -> clock m = start_time m ->
         Forall (quiet delta) es ->
         match monitor_loop cfg es flag m with
         | (f, m', Leave TimedOut) =>
             f = 0
             /\ (inject_Z (timeout cfg) < elapsed m')%Q
             /\ (elapsed m' <= inject_Z (timeout cfg) + 5 + delta)%Q
         | (f, m', Go) =>
             f = flag
             /\ (5 * inject_Z (Z.of_nat (length es)) <= inject_Z (timeout cfg) + 5)%Q
         | _ => False
         end))
  /\ (timeout cfg = 0 ->
      forall es flag m, (monitor_loop cfg es flag m).2 <> Leave TimedOut)
  /\ (forall sha gcfg e g,
        Gui.stop_is_set e = false ->
        (Gui.iteration sha gcfg e g).2 = Gui.Break Gui.Timeout
        <-> 0 < Gui.timeout gcfg
            /\ (inject_Z (Gui.timeout gcfg) < Gui.now e - Gui.start_time gcfg)%Q).
Proof.
  split; [|split].
  - intros HT. split.
    + intros e flag m Hf Hs Hk Ha.
      destruct (monitor_pass_quiet e flag m Hf Hs Hk Ha HT) as [Hout Hgo].
      split; intros H.
      * destruct (Hout H) as (m' & -> & _). split; reflexivity.
      * destruct (Hgo H) as (m' & -> & _). split; reflexivity.
    + intros es flag m Hf Hs Hstart Hall.
      assert (elapsed m == 0)%Q as H0 by (unfold elapsed; rewrite Hstart; ring).
      assert (0 <= inject_Z (timeout cfg))%Q as HT'.
      { change 0%Q with (inject_Z 0). rewrite <- Zle_Qle. lia. }
      pose proof (monitor_loop_quiet delta es flag m HT Hf Hs
                    ltac:(rewrite H0; lra) Hall) as H.
      destruct (monitor_loop cfg es flag m) as [[f m'] [|[]]]; try assumption.
      destruct H as (? & ? & ? & ?). split; [assumption|].
      rewrite H0 in *. lra.
  - intros HT es flag m. apply monitor_loop_no_timeout. lia.
  - apply gui_iteration_timeout.
Qed.

End TimeoutFacts.

(** ** The loop of the window *)

Section GuiFacts.

Import Gui.

Variable sha256_hexdigest : list Z -> string.
Variable cfg : Gui.config.

Local Abbreviation admit_image := (Gui.admit_image sha256_hexdigest).
Local Abbreviation try_download := (Gui.try_download sha256_hexdigest).
Local Abbreviation try_body := (Gui.try_body sha256_hexdigest).
Local Abbreviation iteration := (Gui.iteration sha256_hexdigest).
Local Abbreviation loop := (Gui.loop sha256_hexdigest).

Ltac unchanged := left; unfold same_store; repeat split; reflexivity.

Lemma same_store_refl (g : gui) : same_store g g.
Proof. repeat split. Qed.

(** What the admission of a decoded image does to the store. *)
Lemma admit_image_effect (e : page_env) (img : image) (g : gui) :
  same_store g (admit_image cfg e img g)
  \/ (one_saved cfg (sha256_hexdigest (pixels img)) g (admit_image cfg e img g)
      /\ width cfg <= img_width img /\ height cfg <= img_height img).
Proof.
  unfold Gui.admit_image.
  destruct (Z.leb_spec (width cfg) (img_width img)) as [Hw|Hw];
    [|unchanged].
  destruct (Z.leb_spec (height cfg) (img_height img)) as [Hh|Hh];
    [|unchanged].
  cbn [andb].
  destruct (bool_decide_reflect
              (sha256_hexdigest (pixels img) ∈ initial_files cfg)) as [Hi|Hi];
    [unchanged|].
  destruct (bool_decide_reflect
              ((sha256_hexdigest (pixels img) ++ ".png")%string ∈ files g))
    as [Hp|Hp]; [unchanged|].
  cbn [negb andb].
  destruct (save e) as [[]|x]; [|unchanged].
  right. repeat split; assumption.
Qed.

Lemma try_download_effect (e : page_env) (g : gui) :
  same_store g (try_download cfg e g)
  \/ exists img,
       decoded e = Some img
       /\ one_saved cfg (sha256_hexdigest (pixels img)) g (try_download cfg e g)
       /\ width cfg <= img_width img /\ height cfg <= img_height img.
Proof.
  unfold Gui.try_download, decoded.
  destruct (response e) as [[status [img|x]]|x];
    try (unchanged);
    destruct ((200 <=? status) && (status <? 300))%bool;
    try (unchanged).
  destruct (admit_image_effect e img g) as [H|H]; [left; exact H|].
  right. exists img. split; [reflexivity|]. tauto.
Qed.

Lemma try_body_effect (e : page_env) (g : gui) :
  same_store g (try_body cfg e g).1
  \/ exists img wf hf,
       decoded e = Some img /\ size_found e = Some (wf, hf)
       /\ one_saved cfg (sha256_hexdigest (pixels img)) g (try_body cfg e g).1
       /\ width cfg <= img_width img /\ height cfg <= img_height img
       /\ width cfg <= wf /\ height cfg <= hf.
Proof.
  unfold Gui.try_body.
  destruct (size_found e) as [[wf hf]|]; [|unchanged].
  destruct (link e) as [l|]; [|unchanged].
  match goal with
  | |- context [ (match next e with Raise x => (?g1, _) | Ok _ => (?g1, None) end).1 ] =>
      assert ((match next e with
               | Raise x => (g1, Some (OtherException
                               ("Could not move to the next image: " ++ str_exn x)))
               | Ok _ => (g1, None) end).1 = g1) as ->
        by (destruct (next e); reflexivity)
  end.
  destruct (Z.leb_spec (width cfg) wf) as [Hw|Hw];
    [|unchanged].
  destruct (Z.leb_spec (height cfg) hf) as [Hh|Hh];
    [|unchanged].
  cbn [andb].
  match goal with
  | |- context [try_download cfg e ?g1] =>
      destruct (try_download_effect e g1) as [H|(img & Hd & Hs & Hiw & Hih)]
  end.
  - left. exact H.
  - right. exists img, wf, hf. repeat split; try assumption; apply Hs.
Qed.


Lemma iteration_cases (e : page_env) (g : gui) :
  ((iteration cfg e g).2 = Break Stopped /\ stop_is_set e = true
   /\ same_store g (iteration cfg e g).1)
  \/ ((iteration cfg e g).2 = Break Timeout /\ stop_is_set e = false
      /\ same_store g (iteration cfg e g).1)
  \/ ((iteration cfg e g).2 = Break TargetReached /\ stop_is_set e = false
      /\ 0 < count cfg /\ count cfg <= downloaded g
      /\ same_store g (iteration cfg e g).1)
  \/ (((iteration cfg e g).2 = Go \/ (iteration cfg e g).2 = Break MaxErrors)
      /\ ~ (0 < count cfg /\ count cfg <= downloaded g)
      /\ (same_store g (iteration cfg e g).1
          \/ exists img wf hf,
               decoded e = Some img /\ size_found e = Some (wf, hf)
               /\ one_saved cfg (sha256_hexdigest (pixels img)) g
                    (iteration cfg e g).1
               /\ width cfg <= img_width img /\ height cfg <= img_height img
               /\ width cfg <= wf /\ height cfg <= hf)).
Proof.
  unfold Gui.iteration.
  destruct (stop_is_set e) eqn:Hstop.
  { left. repeat split. }
  right.
  destruct ((0 <? timeout cfg)
            && SafeDownload.Qlt_bool (inject_Z (timeout cfg))
                 (now e - start_time cfg))%bool.
  { left. repeat split. }
  right.
  destruct (Z.ltb_spec 0 (count cfg)) as [Hc|Hc]; cbn [andb].
  - destruct (Z.leb_spec (count cfg) (downloaded g)) as [Hd|Hd].
    + left. repeat split; assumption.
    + right. pose proof (try_body_effect e g) as H.
      destruct (try_body cfg e g) as [g' [x|]]; cbn [fst] in H.
      * match goal with |- context [if ?c then _ else _] => destruct c end;
          cbn [fst snd]; (split; [auto|]); (split; [lia|]); exact H.
      * cbn [fst snd]. split; [auto|]. split; [lia|]. exact H.
  - right. pose proof (try_body_effect e g) as H.
    destruct (try_body cfg e g) as [g' [x|]]; cbn [fst] in H.
    * match goal with |- context [if ?c then _ else _] => destruct c end;
        cbn [fst snd]; (split; [auto|]); (split; [lia|]); exact H.
    * cbn [fst snd]. split; [auto|]. split; [lia|]. exact H.
Qed.

Lemma loop_inv_same (dir : gset string) (g g' : gui) :
  loop_inv cfg dir g -> same_store g g' -> loop_inv cfg dir g'.
Proof.
  intros (Hnd & Hw & Hdir & Hlen & Hcnt) (Hf & Hwr & Hd).
  unfold loop_inv. rewrite Hf, Hwr, Hd. auto.
Qed.

Lemma loop_inv_saved (dir : gset string) (h : string) (g g' : gui) :
  loop_inv cfg dir g -> ~ (0 < count cfg /\ count cfg <= downloaded g) ->
  one_saved cfg h g g' -> loop_inv cfg dir g'.
Proof.
  intros (Hnd & Hw & Hdir & Hlen & Hcnt) Hroom (Hi & Hp & Hf & Hwr & Hd).
  unfold loop_inv. rewrite Hf, Hwr, Hd.
  split; [|split; [|split; [|split]]].
  - apply NoDup_app. split; [exact Hnd|]. split.
    + intros x Hx Hx'. apply list_elem_of_singleton in Hx'. subst x.
      apply Hw in Hx. tauto.
    + apply NoDup_singleton.
  - intros x Hx. apply elem_of_app in Hx as [Hx|Hx].
    + destruct (Hw x Hx) as (? & ? & ?). repeat split; try assumption.
      now apply elem_of_union_r.
    + apply list_elem_of_singleton in Hx. subst x.
      repeat split; [assumption| |].
      * now apply elem_of_union_l, elem_of_singleton.
      * intros Hin. apply Hp, Hdir, Hin.
  - intros x Hx. apply elem_of_union_r, Hdir, Hx.
  - rewrite length_app. cbn [length]. lia.
  - intros Hc. specialize (Hcnt Hc). lia.
Qed.

Lemma iteration_inv (dir : gset string) (e : page_env) (g : gui) :
  loop_inv cfg dir g -> loop_inv cfg dir (iteration cfg e g).1.
Proof.
  intros Hinv.
  destruct (iteration_cases e g)
    as [(_ & _ & H)|[(_ & _ & H)|[(_ & _ & _ & _ & H)|(_ & Hroom & H)]]];
    try (eapply loop_inv_same; eassumption).
  destruct H as [H|(img & wf & hf & _ & _ & H & _)];
    [eapply loop_inv_same; eassumption|].
  eapply loop_inv_saved; eassumption.
Qed.

Lemma loop_inv_preserved (dir : gset string) (es : list page_env) :
  forall g, loop_inv cfg dir g -> loop_inv cfg dir (loop cfg es g).1.
Proof.
  induction es as [|e rest IH]; intros g Hinv; [exact Hinv|].
  cbn [Gui.loop]. pose proof (iteration_inv dir e g Hinv) as H.
  destruct (iteration cfg e g) as [g' [|r]]; [now apply IH|exact H].
Qed.

Lemma enter_inv (dir : gset string) : loop_inv cfg dir (enter dir).
Proof.
  unfold loop_inv, enter. cbn.
  split; [apply NoDup_nil_2|]. split; [intros h Hh; inversion Hh|].
  split; [reflexivity|]. split; [reflexivity|]. lia.
Qed.


Lemma stem_of_png (h : string) :
  all_chars (not_sep ".") h = true -> stem (h ++ ".png") = h.
Proof.
  intros H. unfold stem.
  change (h ++ ".png")%string with (h ++ String "." "png")%string.
  now rewrite split_on_app.
Qed.

(** C5.  A pass that decodes an image whose hash name is among the initial
    files, or whose file is already in the output directory, leaves the
    directory, the counter and the saved names as they were; a file
    [h.png] found in the directory when the loop is entered puts [h] among
    the initial files.  Hence in every run of the loop the hash names saved
    are pairwise distinct, none was an initial file, none had its file in
    the directory before, and the counter is their number. *)
Theorem persisted_hashes_are_distinct :
  (forall e g img,
      decoded e = Some img ->
      sha256_hexdigest (pixels img) ∈ initial_files cfg
      \/ (sha256_hexdigest (pixels img) ++ ".png")%string ∈ files g ->
      same_store g (iteration cfg e g).1)
  /\ (forall (dir : gset string) h,
        all_chars (not_sep ".") h = true ->
        (h ++ ".png")%string ∈ dir -> h ∈ initial_files_of dir)
  /\ (forall dir es,
        let g' := (loop cfg es (enter dir)).1 in
        NoDup (written g')
        /\ (forall h, h ∈ written g' ->
              (h ∉ initial_files cfg) /\ ((h ++ ".png")%string ∉ dir)
              /\ ((h ++ ".png")%string ∈ files g'))
        /\ downloaded g' = Z.of_nat (length (written g'))).
Proof.
  split; [|split].
  - intros e g img Hd Hskip.
    destruct (iteration_cases e g)
      as [(_ & _ & H)|[(_ & _ & H)|[(_ & _ & _ & _ & H)|(_ & _ & H)]]];
      try exact H.
    destruct H as [H|(img' & wf & hf & Hd' & _ & (Hi & Hp & _) & _)];
      [exact H|].
    rewrite Hd in Hd'. injection Hd' as <-. tauto.
  - intros dir h Hh Hin. unfold initial_files_of.
    apply elem_of_map. exists (h ++ ".png")%string.
    split; [now rewrite stem_of_png | exact Hin].
  - intros dir es g'.
    destruct (loop_inv_preserved dir es _ (enter_inv dir))
      as (Hnd & Hw & _ & Hlen & _).
    split; [exact Hnd|]. split; [|exact Hlen].
    intros h Hh. destruct (Hw h Hh) as (? & ? & ?). auto.
Qed.

(** A pass whose declared size is below the minimum does not look at the
    response: the body of its [try] leaves the locals, the directory and
    the log as they are. *)
Lemma try_body_declared_small (e : page_env) (g : gui) (wf hf : Z) :
  size_found e = Some (wf, hf) -> wf < width cfg \/ hf < height cfg ->
  (try_body cfg e g).1 = g
  /\ (forall e', same_page e e' -> try_body cfg e' g = try_body cfg e g).
Proof.
  intros Hs Hsmall.
  assert (((width cfg <=? wf) && (height cfg <=? hf))%bool = false) as Hgate.
  { apply andb_false_iff. destruct Hsmall; [left|right]; apply Z.leb_gt; lia. }
  split.
  - unfold Gui.try_body. rewrite Hs.
    destruct (link e); [|reflexivity]. rewrite Hgate.
    destruct (next e); reflexivity.
  - intros e' (_ & _ & Hs' & Hl & Hn). unfold Gui.try_body.
    rewrite Hs', Hl, Hn, Hs.
    destruct (link e); [|reflexivity]. rewrite Hgate. reflexivity.
Qed.

Lemma iteration_declared_small (e : page_env) (g : gui) (wf hf : Z) :
  size_found e = Some (wf, hf) -> wf < width cfg \/ hf < height cfg ->
  forall e', same_page e e' -> iteration cfg e' g = iteration cfg e g.
Proof.
  intros Hs Hsmall e' Hsame.
  destruct (try_body_declared_small e g wf hf Hs Hsmall) as (_ & H).
  specialize (H e' Hsame).
  destruct Hsame as (Hstop & Hnow & _).
  unfold Gui.iteration. rewrite Hstop, Hnow, H. reflexivity.
Qed.

(** C6, as amended.  A pass whose decoded image is narrower or lower than
    the minimum saves nothing and leaves the counter as it was, whatever
    size the page declared: so for a decoded 400x300 against a minimum of
    800x600.  A pass whose declared size is narrower or lower than the
    minimum saves nothing either, whatever the image would decode to, and
    it does not fetch the image: the body of its [try] leaves everything as
    it was, the log too, and the pass is the same whatever the request
    would answer.  A pass that saves a file has both its declared and its
    decoded size at or above the minimum. *)
Theorem size_filter_declared_then_decoded (e : page_env) (g : gui) :
  (forall img,
      decoded e = Some img ->
      img_width img < width cfg \/ img_height img < height cfg ->
      same_store g (iteration cfg e g).1)
  /\ (forall img,
        decoded e = Some img ->
        img_width img = 400 -> img_height img = 300 ->
        width cfg = 800 -> height cfg = 600 ->
        same_store g (iteration cfg e g).1)
  /\ (forall wf hf,
        size_found e = Some (wf, hf) ->
        wf < width cfg \/ hf < height cfg ->
        same_store g (iteration cfg e g).1
        /\ (try_body cfg e g).1 = g
        /\ (forall e', same_page e e' ->
              iteration cfg e' g = iteration cfg e g))
  /\ (same_store g (iteration cfg e g).1
      \/ exists img wf hf,
           decoded e = Some img /\ size_found e = Some (wf, hf)
           /\ one_saved cfg (sha256_hexdigest (pixels img)) g
                (iteration cfg e g).1
           /\ width cfg <= img_width img /\ height cfg <= img_height img
           /\ width cfg <= wf /\ height cfg <= hf).
Proof.
  assert (same_store g (iteration cfg e g).1
          \/ exists img wf hf,
               decoded e = Some img /\ size_found e = Some (wf, hf)
               /\ one_saved cfg (sha256_hexdigest (pixels img)) g
                    (iteration cfg e g).1
               /\ width cfg <= img_width img /\ height cfg <= img_height img
               /\ width cfg <= wf /\ height cfg <= hf) as Hcases.
  { destruct (iteration_cases e g)
      as [(_ & _ & H)|[(_ & _ & H)|[(_ & _ & _ & _ & H)|(_ & _ & H)]]];
      auto. }
  assert (forall img,
             decoded e = Some img ->
             img_width img < width cfg \/ img_height img < height cfg ->
             same_store g (iteration cfg e g).1) as Hdec.
  { intros img Hd Hsmall.
    destruct Hcases as [H|(img' & wf & hf & Hd' & _ & _ & Hw & Hh & _)];
      [exact H|].
    rewrite Hd in Hd'. injection Hd' as <-. lia. }
  split; [exact Hdec|]. split; [|split; [|exact Hcases]].
  - intros img Hd Hw Hh Hmw Hmh. apply (Hdec img Hd). lia.
  - intros wf hf Hs Hsmall. split; [|split].
    + destruct Hcases as [H|(img' & wf' & hf' & _ & Hs' & _ & _ & _ & Hw & Hh)];
        [exact H|].
      rewrite Hs in Hs'. injection Hs' as <- <-. lia.
    + apply (try_body_declared_small e g wf hf Hs Hsmall).
    + apply (iteration_declared_small e g wf hf Hs Hsmall).
Qed.

(** The count of the files follows the counter. *)
Lemma files_counted_same (dir : gset string) (g g' : gui) :
  files_counted dir g -> same_store g g' -> files_counted dir g'.
Proof.
  intros (Hn & Hf) (Ef & Ew & Ed). unfold files_counted.
  rewrite Ef, Ew, Ed. auto.
Qed.

Lemma files_counted_saved (dir : gset string) (h : string) (g g' : gui) :
  files_counted dir g -> one_saved cfg h g g' -> files_counted dir g'.
Proof.
  intros (Hn & Hf) (_ & Hp & Ef & Ew & Ed). unfold files_counted.
  rewrite Ef, Ew, Ed. split.
  - rewrite size_union by (apply disjoint_singleton_l; exact Hp).
    rewrite size_singleton. lia.
  - intros file. rewrite elem_of_union, elem_of_singleton, Hf. split.
    + intros [->|[Hd|(h' & Hh' & ->)]].
      * right. exists h. split; [|reflexivity].
        apply elem_of_app. right. now apply list_elem_of_singleton.
      * now left.
      * right. exists h'. split; [|reflexivity].
        apply elem_of_app. now left.
    + intros [Hd|(h' & Hh' & ->)]; [right; now left|].
      apply elem_of_app in Hh' as [Hh'|Hh'].
      * right. right. now exists h'.
      * apply list_elem_of_singleton in Hh'. subst h'. now left.
Qed.

Lemma iteration_files_counted (dir : gset string) (e : page_env) (g : gui) :
  files_counted dir g -> files_counted dir (iteration cfg e g).1.
Proof.
  intros Hinv.
  destruct (iteration_cases e g)
    as [(_ & _ & H)|[(_ & _ & H)|[(_ & _ & _ & _ & H)|(_ & _ & H)]]];
    try (eapply files_counted_same; eassumption).
  destruct H as [H|(img & wf & hf & _ & _ & H & _)];
    [eapply files_counted_same; eassumption|].
  eapply files_counted_saved; eassumption.
Qed.

Lemma loop_files_counted (dir : gset string) (es : list page_env) :
  forall g, files_counted dir g -> files_counted dir (loop cfg es g).1.
Proof.
  induction es as [|e rest IH]; intros g Hinv; [exact Hinv|].
  cbn [Gui.loop]. pose proof (iteration_files_counted dir e g Hinv) as H.
  destruct (iteration cfg e g) as [g' [|r]]; [now apply IH|exact H].
Qed.

Lemma enter_files_counted (dir : gset string) : files_counted dir (enter dir).
Proof.
  unfold files_counted, enter. cbn. split; [lia|].
  intros file. split; [auto|].
  intros [H|(h & Hh & _)]; [exact H|]. inversion Hh.
Qed.

Lemma loop_target_reached (dir : gset string) (es : list page_env) :
  forall g, loop_inv cfg dir g ->
  (loop cfg es g).2 = Break TargetReached ->
  0 < count cfg /\ downloaded (loop cfg es g).1 = count cfg.
Proof.
  induction es as [|e rest IH]; intros g Hinv; [cbn; discriminate|].
  cbn [Gui.loop].
  pose proof (iteration_inv dir e g Hinv) as Hinv'.
  pose proof (iteration_cases e g) as Hc.
  destruct (iteration cfg e g) as [g' [|r]]; [now apply IH|].
  cbn [fst snd] in *. intros Hr.
  destruct Hc as [(E & _)|[(E & _)|[(_ & _ & Hpos & Hle & (_ & _ & Hd))|([E|E] & _)]]];
    try congruence.
  destruct Hinv' as (_ & _ & _ & _ & Hcnt). specialize (Hcnt Hpos).
  split; [exact Hpos|]. lia.
Qed.

Lemma loop_no_target (es : list page_env) :
  forall g, count cfg <= 0 -> (loop cfg es g).2 <> Break TargetReached.
Proof.
  induction es as [|e rest IH]; intros g Hz; [cbn; discriminate|].
  cbn [Gui.loop].
  pose proof (iteration_cases e g) as Hc.
  destruct (iteration cfg e g) as [g' [|r]]; [now apply IH|].
  cbn [fst snd] in *.
  destruct Hc as [(E & _)|[(E & _)|[(_ & _ & Hpos & _)|([E|E] & _)]]];
    try congruence. lia.
Qed.

(** C7.  In every run of the loop the counter is the number of files the
    run has added to the output directory, one for each hash name saved,
    and under a positive target it never passes it; the loop is left on the
    target only with a positive target and as many files added as the
    target says.  With the counter at a positive target, the next test of
    the loop leaves it with nothing more saved, and on the target unless
    the stop event is set or the time is out.  With a target of 0 the loop
    is never left on the target. *)
Theorem target_count_stops_the_loop :
  (forall dir es,
      let r := loop cfg es (enter dir) in
      downloaded r.1 = Z.of_nat (length (written r.1))
      /\ Z.of_nat (size (files r.1)) = Z.of_nat (size dir) + downloaded r.1
      /\ (forall file,
            file ∈ files r.1
            <-> file ∈ dir
                \/ exists h, h ∈ written r.1 /\ file = (h ++ ".png")%string)
      /\ (0 < count cfg -> downloaded r.1 <= count cfg)
      /\ (r.2 = Break TargetReached ->
          0 < count cfg /\ downloaded r.1 = count cfg
          /\ Z.of_nat (size (files r.1)) = Z.of_nat (size dir) + count cfg))
  /\ (forall e es g,
        0 < count cfg -> count cfg <= downloaded g ->
        same_store g (loop cfg (e :: es) g).1
        /\ (exists r, (loop cfg (e :: es) g).2 = Break r /\ r <> MaxErrors)
        /\ (stop_is_set e = false ->
            (0 < timeout cfg ->
             (now e - start_time cfg <= inject_Z (timeout cfg))%Q) ->
            (loop cfg (e :: es) g).2 = Break TargetReached))
  /\ (count cfg = 0 ->
      forall es g, (loop cfg es g).2 <> Break TargetReached).
Proof.
  split; [|split].
  - intros dir es r.
    destruct (loop_inv_preserved dir es _ (enter_inv dir))
      as (_ & _ & _ & Hlen & Hcnt).
    destruct (loop_files_counted dir es _ (enter_files_counted dir))
      as (Hsize & Hfiles).
    split; [exact Hlen|]. split; [exact Hsize|]. split; [exact Hfiles|].
    split; [exact Hcnt|].
    intros Hr.
    destruct (loop_target_reached dir es _ (enter_inv dir) Hr) as (Hpos & Hd).
    split; [exact Hpos|]. split; [exact Hd|].
    fold r in Hd. rewrite <- Hd. exact Hsize.
  - intros e es g Hpos Hle.
    cbn [Gui.loop]. unfold Gui.iteration.
    destruct (stop_is_set e).
    { cbn. split; [repeat split|]. split; [eexists; split; [reflexivity|discriminate]|].
      discriminate. }
    destruct (Z.ltb_spec 0 (timeout cfg)) as [HT|HT]; cbn [andb].
    + destruct (SafeDownload.Qlt_bool (inject_Z (timeout cfg))
                  (now e - start_time cfg)) eqn:E.
      * cbn. split; [repeat split|].
        split; [eexists; split; [reflexivity|discriminate]|].
        intros _ H. apply Qlt_bool_iff in E. specialize (H HT).
        exfalso. eapply Qlt_not_le; eauto.
      * assert ((0 <? count cfg) = true) as -> by now apply Z.ltb_lt.
        assert ((count cfg <=? downloaded g) = true) as -> by now apply Z.leb_le.
        cbn. split; [repeat split|].
        split; [eexists; split; [reflexivity|discriminate]|]. reflexivity.
    + assert ((0 <? count cfg) = true) as -> by now apply Z.ltb_lt.
      assert ((count cfg <=? downloaded g) = true) as -> by now apply Z.leb_le.
      cbn. split; [repeat split|].
      split; [eexists; split; [reflexivity|discriminate]|]. reflexivity.
  - intros Hz es g. apply loop_no_target. lia.
Qed.

End GuiFacts.

(** ** Sample runs *)

Section SampleRuns.

(** C6 as stated fails where it has the decoded size alone decide: the same
    response, decoding to 1024x768 against a minimum of 800x600 in an empty
    directory, is saved when the page declares 1024x768 and is not even
    fetched when the page declares 640x480. *)
Lemma declared_size_decides_counterexample :
  Gui.decoded (Gui.sample_page (640, 480)) = Some Gui.sample_image
  /\ Gui.decoded (Gui.sample_page (1024, 768)) = Some Gui.sample_image
  /\ Gui.width Gui.sample_config <= Gui.img_width Gui.sample_image
  /\ Gui.height Gui.sample_config <= Gui.img_height Gui.sample_image
  /\ Gui.written (Gui.iteration Gui.sample_hash Gui.sample_config
                    (Gui.sample_page (1024, 768)) (Gui.enter ∅)).1
     = ["abc123"]
  /\ Gui.downloaded (Gui.iteration Gui.sample_hash Gui.sample_config
                       (Gui.sample_page (1024, 768)) (Gui.enter ∅)).1
     = 1
  /\ Gui.written (Gui.iteration Gui.sample_hash Gui.sample_config
                    (Gui.sample_page (640, 480)) (Gui.enter ∅)).1
     = []
  /\ Gui.downloaded (Gui.iteration Gui.sample_hash Gui.sample_config
                       (Gui.sample_page (640, 480)) (Gui.enter ∅)).1
     = 0.
Proof. vm_compute. repeat split; lia || reflexivity || discriminate. Qed.

Lemma timeout_lowers_flag_witness :
  0 < SafeDownload.timeout SafeDownload.sample_config
  /\ SafeDownload.monitor_loop SafeDownload.sample_config
       [SafeDownload.quiet_pass; SafeDownload.quiet_pass;
        SafeDownload.quiet_pass] 1 SafeDownload.fresh_parent
     = (0,
        SafeDownload.log INFO "Reached timeout of 7 seconds. Shutting down..."
          (SafeDownload.elapse 0 (SafeDownload.elapse 5
             (SafeDownload.log INFO "Downloaded 0 images so far..."
               (SafeDownload.elapse 0 (SafeDownload.elapse 5
                  (SafeDownload.log INFO "Downloaded 0 images so far..."
                     (SafeDownload.elapse 0 SafeDownload.fresh_parent))))))),
        SafeDownload.Leave SafeDownload.TimedOut)
  /\ match SafeDownload.monitor_loop SafeDownload.sample_config
             [SafeDownload.quiet_pass; SafeDownload.quiet_pass;
              SafeDownload.quiet_pass] 1 SafeDownload.fresh_parent with
     | (f, m', SafeDownload.Leave SafeDownload.TimedOut) =>
         f = 0
         /\ (inject_Z 7 < SafeDownload.elapsed m')%Q
         /\ (SafeDownload.elapsed m' <= inject_Z 7 + 5 + 0)%Q
     | (f, m', SafeDownload.Go) =>
         f = 1 /\ (5 * inject_Z 3 <= inject_Z 7 + 5)%Q
     | _ => False
     end.
Proof.
  split; [reflexivity|]. split; [reflexivity|].
  destruct (timeout_lowers_flag SafeDownload.sample_config 0) as ((_ & H) & _).
  { reflexivity. }
  apply (H [SafeDownload.quiet_pass; SafeDownload.quiet_pass;
            SafeDownload.quiet_pass] 1 SafeDownload.fresh_parent).
  - discriminate.
  - reflexivity.
  - reflexivity.
  - repeat constructor; discriminate.
Defined.

End SampleRuns.

(** ** The search link and the stems *)

Section LinkFacts.

Import PyStr Main.

Lemma count_char_app (c : ascii) (a b : string) :
  count_char c (a ++ b) = (count_char c a + count_char c b)%nat.
Proof.
  induction a as [|d r IH]; [reflexivity|].
  simpl. destruct (Ascii.eqb d c); rewrite IH; reflexivity.
Qed.

Lemma string_length_app (a b : string) :
  String.length (a ++ b) = (String.length a + String.length b)%nat.
Proof. induction a as [|d r IH]; simpl; [reflexivity|]. now rewrite IH. Qed.

Lemma replace_space_no_space (s : string) :
  count_char " " (replace_char " " "%20" s) = 0%nat.
Proof.
  induction s as [|d r IH]; [reflexivity|].
  cbn [replace_char]. destruct (Ascii.eqb d " ") eqn:E.
  - rewrite count_char_app, IH. reflexivity.
  - cbn [count_char]. now rewrite E.
Qed.

Lemma replace_space_length (s : string) :
  String.length (replace_char " " "%20" s)
  = (String.length s + 2 * count_char " " s)%nat.
Proof.
  induction s as [|d r IH]; [reflexivity|].
  cbn [replace_char count_char]. destruct (Ascii.eqb d " ").
  - rewrite string_length_app, IH. cbn [String.length]. lia.
  - cbn [String.length]. rewrite IH. lia.
Qed.

Lemma search_url_startswith_http (search : string) :
  startswith "http" (search_url search) = true.
Proof.
  unfold search_url. destruct (startswith "http" search) eqn:E; [exact E|].
  reflexivity.
Qed.

(** X1.  The link handed to the crawler always begins with [http]; so building
    a link from a link gives it back. *)
Theorem search_url_is_a_link (search : string) :
  startswith "http" (search_url search) = true
  /\ search_url (search_url search) = search_url search.
Proof.
  split; [apply search_url_startswith_http|].
  unfold search_url at 1. now rewrite search_url_startswith_http.
Qed.

(** X2.  A term that does not begin with [http] gives the search prefix followed
    by the term with [%20] for each space: the link holds no space, and is
    longer than the prefix and the term by two characters for each space. *)
Theorem search_url_escapes_spaces (search : string) :
  startswith "http" search = false ->
  search_url search
  = (search_prefix ++ replace_char " " "%20" search)%string
  /\ count_char " " (search_url search) = 0%nat
  /\ String.length (search_url search)
     = (38 + String.length search + 2 * count_char " " search)%nat.
Proof.
  intros H. unfold search_url. rewrite H.
  split; [reflexivity|]. split.
  - rewrite count_char_app, replace_space_no_space. reflexivity.
  - rewrite string_length_app, replace_space_length. reflexivity.
Qed.

Lemma search_url_escapes_spaces_witness :
  startswith "http" "cute cats" = false
  /\ search_url "cute cats" = "https://yandex.com/images/search?text=cute%20cats"
  /\ count_char " " (search_url "cute cats") = 0%nat.
Proof.
  split; [reflexivity|].
  destruct (search_url_escapes_spaces "cute cats" eq_refl) as (H1 & H2 & _).
  split; [exact H1 | exact H2].
Defined.

(** The first field of a split holds no separator, and the text is that
    field followed by nothing or by a separator and the rest. *)
Lemma split_on_head (sep : ascii) (s : string) :
  exists f fs,
    split_on sep s = f :: fs
    /\ count_char sep f = 0%nat
    /\ (s = f /\ fs = [] \/ exists r, s = (f ++ String sep r)%string).
Proof.
  induction s as [|c r IH].
  - exists EmptyString, []. cbn. auto.
  - cbn [split_on]. destruct (Ascii.eqb c sep) eqn:E.
    + exists EmptyString, (split_on sep r). split; [reflexivity|].
      split; [reflexivity|]. right. exists r.
      apply Ascii.eqb_eq in E. now subst c.
    + destruct IH as (f & fs & Hs & Hc & Hr). rewrite Hs.
      exists (String c f), fs. split; [reflexivity|]. split.
      * cbn [count_char]. now rewrite E.
      * destruct Hr as [[-> ->]|[r' ->]]; [left; auto|].
        right. exists r'. reflexivity.
Qed.

(** X3.  A stem holds no dot; a file name is its stem, or its stem followed by a
    dot and more; a name without a dot is its own stem, and a name that
    begins with a dot has the empty stem. *)
Theorem stem_is_the_part_before_the_first_dot (file : string) :
  count_char "." (Gui.stem file) = 0%nat
  /\ (file = Gui.stem file
      \/ exists rest, file = (Gui.stem file ++ String "." rest)%string)
  /\ (count_char "." file = 0%nat -> Gui.stem file = file)
  /\ (forall rest, Gui.stem (String "." rest) = EmptyString).
Proof.
  unfold Gui.stem.
  destruct (split_on_head "." file) as (f & fs & Hs & Hc & Hr).
  rewrite Hs. split; [exact Hc|]. split; [|split].
  - destruct Hr as [[-> _]|[r ->]]; [left; reflexivity|].
    right. now exists r.
  - intros Hnone. destruct Hr as [[-> _]|[r ->]]; [reflexivity|].
    rewrite count_char_app in Hnone. cbn in Hnone. lia.
  - intros rest. reflexivity.
Qed.

End LinkFacts.

(** ** The skip set and the count of downloads *)

Section SkipFacts.

Import Main.

Lemma size_set_map_le (f : string -> string) (X : gset string) :
  (base.size (set_map f X : gset string) <= base.size X)%nat.
Proof.
  induction X as [|x X Hx IH] using set_ind_L.
  - rewrite set_map_empty. reflexivity.
  - rewrite set_map_union_L, set_map_singleton_L.
    rewrite (size_union {[x]} X) by set_solver.
    rewrite size_union_alt, !size_singleton.
    pose proof (subseteq_size ((set_map f X : gset string) ∖ {[f x]})
                  (set_map f X)) as Hsub.
    specialize (Hsub ltac:(set_solver)). lia.
Qed.

Lemma size_set_map_inj (f : string -> string) (X : gset string) :
  (forall a b, a ∈ X -> b ∈ X -> f a = f b -> a = b) ->
  base.size (set_map f X : gset string) = base.size X.
Proof.
  induction X as [|x X Hx IH] using set_ind_L; intros Hinj.
  - rewrite set_map_empty. reflexivity.
  - rewrite set_map_union_L, set_map_singleton_L.
    rewrite (size_union {[x]} X) by set_solver.
    rewrite size_union, !size_singleton.
    + rewrite IH; [reflexivity|].
      intros a b' Ha Hb. apply Hinj; set_solver.
    + intros y Hy Hy'. apply elem_of_singleton in Hy. subst y.
      apply elem_of_map in Hy' as (z & Hz & HzX).
      assert (x = z) by (apply Hinj; set_solver). subst z. contradiction.
Qed.

Lemma size_set_map_shared (f : string -> string) (X : gset string)
    (a b : string) :
  a ∈ X -> b ∈ X -> a <> b -> f a = f b ->
  (base.size (set_map f X : gset string) < base.size X)%nat.
Proof.
  intros Ha Hb Hne Hf.
  assert (X = {[a]} ∪ (X ∖ {[a]})) as HX.
  { apply set_eq. intros y. rewrite elem_of_union, elem_of_difference,
      elem_of_singleton. destruct (decide (y = a)); subst; tauto. }
  assert ((set_map f X : gset string) = set_map f (X ∖ {[a]})) as Hmap.
  { apply set_eq. intros y. rewrite !elem_of_map. split.
    - intros (z & -> & Hz). destruct (decide (z = a)) as [->|Hza].
      + exists b. split; [exact Hf|]. set_solver.
      + exists z. split; [reflexivity|]. set_solver.
    - intros (z & -> & Hz). exists z. split; [reflexivity|]. set_solver. }
  rewrite Hmap.
  pose proof (size_set_map_le f (X ∖ {[a]})) as Hle.
  assert (base.size X = S (base.size (X ∖ {[a]}))) as Hsize.
  { rewrite HX at 1. rewrite size_union by set_solver.
    now rewrite size_singleton. }
  lia.
Qed.

(** X4.  The skip set has at most one entry per file found; the count the
    monitoring loop reports before anything is downloaded,
    [len(files) - len(skip_files)], is therefore never negative; it is 0
    when no two files share a stem and positive when two do. *)
Theorem count_before_any_download (a : args) (files : gset string)
    (cfg : SafeDownload.config) (image_size : Z * Z)
    (records : list log_record) :
  main a (Some files) = Ok (cfg, image_size, records) ->
  let downloaded :=
    SafeDownload.downloaded_count cfg (Some (Z.of_nat (base.size files))) in
  0 <= downloaded
  /\ ((forall f1 f2, f1 ∈ files -> f2 ∈ files ->
         Gui.stem f1 = Gui.stem f2 -> f1 = f2) ->
      downloaded = 0)
  /\ (forall f1 f2, f1 ∈ files -> f2 ∈ files -> f1 <> f2 ->
        Gui.stem f1 = Gui.stem f2 -> 0 < downloaded).
Proof.
  unfold main. destruct (SizeArg.image_size_of_arg (size a)) as [[sz recs]|e];
    [|discriminate].
  intros H. injection H as <- _ _.
  cbn zeta. unfold SafeDownload.downloaded_count.
  cbn [SafeDownload.n_skip_files skip_files].
  split; [|split].
  - pose proof (size_set_map_le Gui.stem files). lia.
  - intros Hinj. rewrite (size_set_map_inj Gui.stem files Hinj). lia.
  - intros f1 f2 H1 H2 Hne Hs.
    pose proof (size_set_map_shared Gui.stem files f1 f2 H1 H2 Hne Hs). lia.
Qed.

End SkipFacts.

Section MainFacts.

Import Main.

Lemma image_size_of_arg_total (s : string) :
  exists image_size records,
    SizeArg.image_size_of_arg s = Ok (image_size, records).
Proof.
  unfold SizeArg.image_size_of_arg.
  destruct (SizeArg.unpack2_map_int (split_on "x" s)) as [[w h]|e] eqn:E.
  - eauto.
  - rewrite (unpack2_raises_ValueError _ _ E). eauto.
Qed.

(** X5.  Whatever the arguments and the output directory, when its prints
    go through [main] reaches the call of [safe_download]: with the one
    link built from the search argument, so with one producer, numbered 0
    and not yet started, and a queue bounded by 10.  When a print raises,
    that exception leaves [main] and [safe_download] is not called. *)
Theorem main_starts_one_producer (a : args) (listing : option (gset string))
    (now : Q) :
  (forall u,
      exists cfg image_size records,
        main_run (Ok u) a listing = Ok (cfg, image_size, records)
        /\ SafeDownload.links cfg = [search_url (search a)]
        /\ SafeDownload.producers (SafeDownload.start cfg now)
           = [(SafeCrawler.new_crawler (search_url (search a)) 0 (max_errors a),
               SafeDownload.NotStarted)]
        /\ SafeDownload.maxsize
             (SafeDownload.load_queue (SafeDownload.start cfg now))
           = 10
        /\ 0 <= SafeDownload.n_skip_files cfg)
  /\ (forall e, main_run (Raise e) a listing = Raise e).
Proof.
  unfold main_run, main.
  destruct (image_size_of_arg_total (size a)) as (sz & recs & ->).
  split; [|reflexivity].
  intros u. eexists _, sz, recs. split; [reflexivity|].
  split; [reflexivity|]. split; [reflexivity|]. split; [reflexivity|].
  cbn. lia.
Qed.

Lemma count_before_any_download_witness :
  let a := {| search := "cute cats"; count := 10; size := "800x600";
              dir := "downloaded_images"; headless := false;
              max_errors := 10; timeout := 300 |} in
  let files : gset string := {[ "a.png"; "a.jpg" ]} in
  let cfg := {| SafeDownload.links := [search_url "cute cats"];
                SafeDownload.image_count := 10;
                SafeDownload.n_skip_files :=
                  Z.of_nat (base.size (skip_files (Some files)));
                SafeDownload.max_errors_arg := 10;
                SafeDownload.timeout := 300 |} in
  main a (Some files) = Ok (cfg, (800, 600), [])
  /\ 0 < SafeDownload.downloaded_count cfg (Some (Z.of_nat (base.size files))).
Proof.
  intros a files cfg.
  assert (main a (Some files) = Ok (cfg, (800, 600), [])) as H by reflexivity.
  split; [exact H|].
  destruct (count_before_any_download a files cfg (800, 600) [] H)
    as (_ & _ & Hshared).
  apply (Hshared "a.png" "a.jpg").
  - apply elem_of_union_l, elem_of_singleton. reflexivity.
  - apply elem_of_union_r, elem_of_singleton. reflexivity.
  - discriminate.
  - reflexivity.
Defined.

End MainFacts.

(** ** The end of [safe_download] *)

Section FinalizerFacts.

Import SafeDownload.

Lemma leading_alive_le (n : nat) (alive : list bool) :
  (leading_alive n alive <= n)%nat.
Proof.
  revert alive. induction n as [|n IH]; intros alive; [reflexivity|].
  destruct alive as [|[] rest]; cbn [leading_alive]; try lia.
  specialize (IH rest). lia.
Qed.

Lemma grace_wait_clock (n : nat) (alive : list bool) :
  forall m,
  (clock (grace_wait n alive m)
   == clock m + inject_Z (Z.of_nat (leading_alive n alive)))%Q
  /\ should_exit (grace_wait n alive m) = should_exit m
  /\ start_time (grace_wait n alive m) = start_time m
  /\ logged (grace_wait n alive m) = logged m.
Proof.
  revert alive. induction n as [|n IH]; intros alive m.
  - cbn. repeat split. ring.
  - destruct alive as [|[] rest]; cbn [grace_wait leading_alive];
      try (cbn; repeat split; ring).
    destruct (IH rest (elapse 1 m)) as (Hc & Hs & Hst & Hl).
    rewrite Hc, Hs, Hst, Hl. cbn [elapse clock should_exit start_time logged].
    repeat split. rewrite Nat2Z.inj_succ. unfold Z.succ.
    rewrite inject_Z_plus. change (inject_Z 1) with 1%Q. ring.
Qed.

(** X6.  The [finally] block lowers the flag and logs the final count whatever
    state it starts from.  It waits one second for each reading, among the
    first five, that finds a child alive before one that finds none: 5
    seconds at most, and none when the first reading finds none. *)
Theorem finalizer_waits_at_most_five_seconds (cfg : config)
    (alive : list bool) (files : option Z) (f : Z) (m : parent) :
  let r := finalizer cfg alive files f m in
  r.1 = 0
  /\ (clock r.2 == clock m + inject_Z (Z.of_nat (leading_alive 5 alive)))%Q
  /\ (clock m <= clock r.2)%Q /\ (clock r.2 <= clock m + 5)%Q
  /\ (forall rest, alive = false :: rest -> (clock r.2 == clock m)%Q)
  /\ logged r.2
     = (logged m
        ++ [(INFO, ("Download complete. Downloaded "
                    ++ str_int (downloaded_count cfg files)
                    ++ " images.")%string)])%list
  /\ should_exit r.2 = should_exit m.
Proof.
  cbn zeta. unfold finalizer. cbn [fst snd log clock logged should_exit].
  destruct (grace_wait_clock 5 alive m) as (Hc & Hs & _ & Hl).
  pose proof (leading_alive_le 5 alive) as Hle.
  assert (0 <= inject_Z (Z.of_nat (leading_alive 5 alive)))%Q as H0.
  { change 0%Q with (inject_Z 0). rewrite <- Zle_Qle. lia. }
  assert (inject_Z (Z.of_nat (leading_alive 5 alive)) <= 5)%Q as H5.
  { change 5%Q with (inject_Z 5). rewrite <- Zle_Qle. lia. }
  split; [reflexivity|]. split; [exact Hc|].
  split; [rewrite Hc; lra|]. split; [rewrite Hc; lra|].
  split; [|split; [now rewrite Hl | exact Hs]].
  intros rest ->. rewrite Hc. cbn. ring.
Qed.

End FinalizerFacts.

(** ** More on the producer *)

Section ProducerInvariants.

Import SafeCrawler.

Variable b : base_class.

(** What one pass keeps or does. *)
Lemma iteration_shape (e : iter_env) (flag : Z) (c : crawler) :
  let s := iteration b e flag c in
  max_errors (crawler_after s) = max_errors c
  /\ (ctl s = Return -> driver_closed (crawler_after s) = true)
  /\ (ctl s = Continue ->
      driver_closed (crawler_after s) = driver_closed c
      /\ should_exit (crawler_after s) = should_exit c
      /\ flag_after s = flag
      /\ (0 <= consecutive_errors c < max_errors c ->
          0 <= consecutive_errors (crawler_after s) < max_errors c))
  /\ (flag_after s = flag
      \/ flag_after s = 0 /\ should_exit (crawler_after s) = true)
  /\ (ctl s = Return ->
      0 <= consecutive_errors c < max_errors c ->
      0 <= consecutive_errors (crawler_after s) <= max_errors c).
Proof.
  cbn zeta. unfold iteration.
  destruct ((flag =? 0) || should_exit c)%bool.
  { cbn. repeat split; try discriminate; auto; lia. }
  destruct (try_body b e) as [item [x|]].
  - cbn [set_consecutive_errors log max_errors consecutive_errors].
    destruct (Z.leb_spec (max_errors c) (consecutive_errors c + 1)); cbn;
      repeat split; try discriminate; auto; lia.
  - cbn. repeat split; try discriminate; auto; lia.
Qed.

Lemma loop_shape (es : list iter_env) :
  forall (flag : Z) (c : crawler),
  let o := loop b es flag c in
  max_errors (crawler_final o) = max_errors c
  /\ (ended o = Return -> driver_closed (crawler_final o) = true)
  /\ (ended o = Continue ->
      driver_closed (crawler_final o) = driver_closed c
      /\ should_exit (crawler_final o) = should_exit c
      /\ flag_final o = flag
      /\ (0 <= consecutive_errors c < max_errors c ->
          0 <= consecutive_errors (crawler_final o) < max_errors c))
  /\ (flag_final o = flag
      \/ flag_final o = 0 /\ should_exit (crawler_final o) = true)
  /\ (ended o = Return ->
      0 <= consecutive_errors c < max_errors c ->
      0 <= consecutive_errors (crawler_final o) <= max_errors c)
  /\ (length (puts o) <= passes o <= length es)%nat.
Proof.
  induction es as [|e rest IH]; intros flag c.
  { cbn. repeat split; try discriminate; auto; lia. }
  pose proof (iteration_shape e flag c) as Hs. cbn zeta in Hs.
  destruct Hs as (Hm & Hret & Hcont & Hflag & Hbound).
  destruct (ctl (iteration b e flag c)) eqn:Hc.
  - destruct (Hcont eq_refl) as (Hd & Hse & Hf & Hce).
    rewrite (loop_continue b e rest flag c Hc). cbn zeta.
    cbn [flag_final crawler_final ended puts passes].
    specialize (IH (flag_after (iteration b e flag c))
                   (crawler_after (iteration b e flag c))).
    cbn zeta in IH. destruct IH as (IHm & IHret & IHcont & IHflag & IHbound & IHlen).
    rewrite Hm in *. rewrite Hf in *.
    split; [exact IHm|]. split; [exact IHret|]. split; [|split; [|split]].
    + intros Hgo. destruct (IHcont Hgo) as (H1 & H2 & H3 & H4).
      repeat split; try congruence; apply H4, Hce; tauto.
    + exact IHflag.
    + intros Hr Hb. assert (0 <= consecutive_errors (crawler_after (iteration b e flag c)) < max_errors c) as Hb' by (apply Hce; exact Hb).
      specialize (IHbound Hr Hb'). lia.
    + rewrite length_app. cbn [length].
      destruct (put_item (iteration b e flag c)); cbn [item_list length]; lia.
  - rewrite (loop_return b e rest flag c Hc). cbn zeta.
    cbn [flag_final crawler_final ended puts passes].
    split; [exact Hm|]. split; [auto|]. split; [discriminate|].
    split; [exact Hflag|]. split; [auto|].
    destruct (put_item (iteration b e flag c)); cbn [item_list length]; lia.
Qed.

(** X7.  Whenever [run] returns its session is closed, on each of its three ways
    out, and while it has not returned the session is as it was; the
    session has been sent to the start link; and [run] lowers the flag only
    together with setting [should_exit] of its process. *)
Theorem run_closes_its_session (first : result unit) (es : list iter_env)
    (flag : Z) (c : crawler) :
  let o := run b first es flag c in
  (ended o = Return -> driver_closed (crawler_final o) = true)
  /\ (ended o = Continue ->
      driver_closed (crawler_final o) = driver_closed c
      /\ flag_final o = flag)
  /\ (flag_final o = flag
      \/ flag_final o = 0 /\ should_exit (crawler_final o) = true).
Proof.
  cbn zeta. unfold run.
  destruct (ctl (run_init b first flag c)) eqn:Hc.
  - unfold run_init in *.
    destruct (call_method b
                (written_here "_SafeYandexCrawler__open_first_preview") first);
      [|discriminate Hc].
    cbn [flag_after crawler_after].
    pose proof (loop_shape es flag (driver_get (start_link c) c)) as H.
    cbn zeta in H. destruct H as (_ & Hret & Hcont & Hflag & _).
    split; [exact Hret|]. split; [|exact Hflag].
    intros Hgo. destruct (Hcont Hgo) as (H1 & _ & H3 & _). split; assumption.
  - unfold run_init in *.
    destruct (call_method b
                (written_here "_SafeYandexCrawler__open_first_preview") first);
      [discriminate Hc|].
    cbn. split; [reflexivity|]. split; [discriminate|]. right. auto.
Qed.

(** X8.  From a counter below the budget, the counter is below the budget for as
    long as the loop goes on and at most the budget when it ends; a pass
    puts at most one item on the queue. *)
Theorem error_counter_stays_within_budget (es : list iter_env) (flag : Z)
    (c : crawler) :
  0 <= consecutive_errors c < max_errors c ->
  let o := loop b es flag c in
  max_errors (crawler_final o) = max_errors c
  /\ (ended o = Continue ->
      0 <= consecutive_errors (crawler_final o) < max_errors c)
  /\ (ended o = Return ->
      0 <= consecutive_errors (crawler_final o) <= max_errors c)
  /\ (length (puts o) <= passes o <= length es)%nat.
Proof.
  intros Hb. pose proof (loop_shape es flag c) as H. cbn zeta in *.
  destruct H as (Hm & _ & Hcont & _ & Hret & Hlen).
  split; [exact Hm|]. split; [|split; [|exact Hlen]].
  - intros Hgo. destruct (Hcont Hgo) as (_ & _ & _ & H). now apply H.
  - intros Hr. now apply Hret.
Qed.

End ProducerInvariants.

Section ProducerInvariantWitnesses.

Import SafeCrawler.

Lemma error_counter_stays_within_budget_witness :
  let c := new_crawler "https://yandex.com/images/search?text=cat" 0 3 in
  let o := loop packaged_base [failing_pass; good_pass; failing_pass] 1 c in
  0 <= consecutive_errors c < max_errors c
  /\ (ended o = Continue -> 0 <= consecutive_errors (crawler_final o) < 3).
Proof.
  intros c o. split; [cbn; lia|].
  destruct (error_counter_stays_within_budget packaged_base
              [failing_pass; good_pass; failing_pass] 1 c ltac:(cbn; lia))
    as (_ & H & _).
  exact H.
Defined.

End ProducerInvariantWitnesses.

(** ** The error budget of the window's loop *)

Section GuiBudgetFacts.

Import Gui GuiBudget.

Variable sha256_hexdigest : list Z -> string.
Variable cfg : Gui.config.

Local Abbreviation iteration := (Gui.iteration sha256_hexdigest).
Local Abbreviation loop := (Gui.loop sha256_hexdigest).

Ltac kept := left; split; [repeat split|reflexivity].

(** The counter of errors through the admission of a decoded image: it is
    put to 0 with the file saved, and left alone otherwise. *)
Lemma admit_image_counter (e : page_env) (img : image) (g : gui) :
  let g' := Gui.admit_image sha256_hexdigest cfg e img g in
  (same_store g g' /\ consecutive_errors g' = consecutive_errors g)
  \/ (downloaded g' = downloaded g + 1 /\ consecutive_errors g' = 0).
Proof.
  cbn zeta. unfold Gui.admit_image.
  destruct ((width cfg <=? img_width img) && (height cfg <=? img_height img))%bool;
    [|kept].
  destruct (negb (bool_decide (sha256_hexdigest (pixels img) ∈ initial_files cfg))
            && negb (bool_decide
                       ((sha256_hexdigest (pixels img) ++ ".png")%string
                          ∈ files g)))%bool;
    [|kept].
  destruct (save e) as [[]|x]; [|kept].
  right. split; reflexivity.
Qed.

Lemma try_download_counter (e : page_env) (g : gui) :
  let g' := Gui.try_download sha256_hexdigest cfg e g in
  (same_store g g' /\ consecutive_errors g' = consecutive_errors g)
  \/ (downloaded g' = downloaded g + 1 /\ consecutive_errors g' = 0).
Proof.
  cbn zeta. unfold Gui.try_download.
  destruct (response e) as [[status [img|x]]|x]; try kept;
    destruct ((200 <=? status) && (status <? 300))%bool; try kept.
  apply admit_image_counter.
Qed.

Lemma try_body_counter (e : page_env) (g : gui) :
  let r := Gui.try_body sha256_hexdigest cfg e g in
  (pass_raises e = true <-> r.2 <> None)
  /\ ((same_store g r.1 /\ consecutive_errors r.1 = consecutive_errors g)
      \/ (downloaded r.1 = downloaded g + 1 /\ consecutive_errors r.1 = 0)).
Proof.
  cbn zeta. unfold Gui.try_body, pass_raises.
  destruct (size_found e) as [[wf hf]|];
    [|cbn; split; [split; congruence|kept]].
  destruct (link e) as [l|];
    [|cbn; split; [split; congruence|kept]].
  match goal with
  | |- context [if ?c then Gui.try_download sha256_hexdigest cfg e ?g1 else g] =>
      pose proof (try_download_counter e g1) as H; cbn zeta in H;
      destruct c
  end;
    destruct (next e); cbn [fst snd];
    (split; [split; congruence|]); first [exact H | kept].
Qed.

(** One pass that enters the [try]: the counter is put to 0 exactly when a
    file is saved, and is then one more when the pass raises; the pass
    stops the loop on the budget exactly when it raises and the counter has
    reached the budget. *)
Lemma iteration_counter (e : page_env) (g : gui) :
  let r := iteration cfg e g in
  r.2 = Go \/ r.2 = Break MaxErrors ->
  (downloaded r.1 = downloaded g \/ downloaded r.1 = downloaded g + 1)
  /\ (downloaded r.1 = downloaded g ->
      consecutive_errors r.1
      = consecutive_errors g + (if pass_raises e then 1 else 0))
  /\ (downloaded r.1 = downloaded g + 1 ->
      consecutive_errors r.1 = (if pass_raises e then 1 else 0))
  /\ (r.2 = Break MaxErrors
      <-> pass_raises e = true /\ max_errors cfg <= consecutive_errors r.1).
Proof.
  cbn zeta. unfold Gui.iteration.
  destruct (stop_is_set e); [cbn; intros [H|H]; discriminate H|].
  destruct (_ && _)%bool; [cbn; intros [H|H]; discriminate H|].
  destruct (_ && _)%bool; [cbn; intros [H|H]; discriminate H|].
  intros _.
  destruct (try_body_counter e g) as (Hr & Hc). cbn zeta in Hr, Hc.
  destruct (Gui.try_body sha256_hexdigest cfg e g) as [g' [x|]];
    cbn [fst snd] in *.
  - assert (pass_raises e = true) as -> by (apply Hr; discriminate).
    cbn [set_consecutive_errors log_message consecutive_errors].
    destruct (Z.leb_spec (max_errors cfg) (consecutive_errors g' + 1));
      cbn [fst snd log_message set_consecutive_errors consecutive_errors
           downloaded];
      (split; [destruct Hc as [((_ & _ & Hd) & _)|(Hd & _)]; auto|]);
      (split; [destruct Hc as [((_ & _ & Hd) & Hce)|(Hd & Hce)]; intros; lia|]);
      (split; [destruct Hc as [((_ & _ & Hd) & Hce)|(Hd & Hce)]; intros; lia|]);
      split; try discriminate; try (intros _; split; [reflexivity|lia]);
      try reflexivity.
    intros [_ Hle]. lia.
  - assert (pass_raises e = false) as ->.
    { destruct (pass_raises e); [|reflexivity].
      exfalso. now apply (proj1 Hr). }
    split; [destruct Hc as [((_ & _ & Hd) & _)|(Hd & _)]; auto|].
    split; [destruct Hc as [((_ & _ & Hd) & Hce)|(Hd & Hce)]; intros; lia|].
    split; [destruct Hc as [((_ & _ & Hd) & Hce)|(Hd & Hce)]; intros; lia|].
    split; [discriminate|]. intros [H _]. discriminate H.
Qed.

Lemma iteration_downloaded_mono (e : page_env) (g : gui) :
  downloaded g <= downloaded (iteration cfg e g).1.
Proof.
  destruct (iteration_cases sha256_hexdigest cfg e g)
    as [(_ & _ & H)|[(_ & _ & H)|[(_ & _ & _ & _ & H)|(_ & _ & H)]]];
    try (destruct H as (_ & _ & ->); lia).
  destruct H as [(_ & _ & ->)|(img & wf & hf & _ & _ & (_ & _ & _ & _ & ->) & _)];
    lia.
Qed.

Lemma loop_downloaded_mono (es : list page_env) :
  forall g, downloaded g <= downloaded (loop cfg es g).1.
Proof.
  induction es as [|e rest IH]; intros g; [cbn; lia|].
  cbn [Gui.loop]. pose proof (iteration_downloaded_mono e g) as H.
  destruct (iteration cfg e g) as [g' [|r]]; cbn [fst] in *; [|exact H].
  specialize (IH g'). lia.
Qed.

Lemma raising_passes_cons (e : page_env) (es : list page_env) :
  raising_passes (e :: es)
  = (if pass_raises e then 1 else 0) + raising_passes es.
Proof.
  unfold raising_passes. cbn [List.filter].
  destruct (pass_raises e); cbn [length]; lia.
Qed.

(** Passes that leave the loop going and save nothing: the counter has grown
    by one for each that raised. *)
Lemma loop_counter (es : list page_env) :
  forall g,
  (loop cfg es g).2 = Go ->
  downloaded (loop cfg es g).1 = downloaded g ->
  consecutive_errors (loop cfg es g).1
  = consecutive_errors g + raising_passes es.
Proof.
  induction es as [|e rest IH]; intros g Hgo Hd.
  { unfold raising_passes. cbn. lia. }
  rewrite raising_passes_cons. cbn [Gui.loop] in *.
  pose proof (iteration_counter e g) as Hc. cbn zeta in Hc.
  pose proof (iteration_downloaded_mono e g) as Hm.
  destruct (iteration cfg e g) as [g' [|r]]; cbn [fst snd] in *;
    [|discriminate Hgo].
  destruct (Hc (or_introl eq_refl)) as (_ & Hsame & _ & _).
  pose proof (loop_downloaded_mono rest g') as Hm'.
  assert (downloaded g' = downloaded g) as Hd' by lia.
  rewrite (IH g' Hgo ltac:(lia)), (Hsame Hd'). lia.
Qed.

Lemma gui_loop_app (es es' : list page_env) :
  forall g,
  (loop cfg es g).2 = Go ->
  loop cfg (es ++ es') g = loop cfg es' (loop cfg es g).1.
Proof.
  induction es as [|e rest IH]; intros g H; [reflexivity|].
  cbn [Gui.loop app] in *.
  destruct (iteration cfg e g) as [g' [|r]]; [now apply IH|discriminate].
Qed.

(** X10.  In the window's loop the error counter is put back to 0 only when
    a file is saved, not when a pass merely goes through.  A pass that
    enters the [try] saves one file or none; if none, whatever was fetched
    or decoded, the counter is as before, plus one if the pass raised; if
    one, the counter is 0, or 1 if the pass raised afterwards; and the pass
    stops the loop on the budget exactly when it raised and the counter has
    reached the budget.  So over passes that leave the loop going and save
    nothing, the counter has grown by one for each that raised, however
    many others lie between, and the raising pass with which it reaches the
    budget stops the loop. *)
Theorem window_budget_counts_across_successes :
  (forall e g,
      let r := iteration cfg e g in
      r.2 = Go \/ r.2 = Break MaxErrors ->
      (downloaded r.1 = downloaded g \/ downloaded r.1 = downloaded g + 1)
      /\ (downloaded r.1 = downloaded g ->
          consecutive_errors r.1
          = consecutive_errors g + (if pass_raises e then 1 else 0))
      /\ (downloaded r.1 = downloaded g + 1 ->
          consecutive_errors r.1 = (if pass_raises e then 1 else 0))
      /\ (r.2 = Break MaxErrors
          <-> pass_raises e = true
              /\ max_errors cfg <= consecutive_errors r.1))
  /\ (forall es g,
        (loop cfg es g).2 = Go ->
        downloaded (loop cfg es g).1 = downloaded g ->
        consecutive_errors (loop cfg es g).1
        = consecutive_errors g + raising_passes es)
  /\ (forall es e g,
        (loop cfg es g).2 = Go ->
        downloaded (loop cfg es g).1 = downloaded g ->
        let r := iteration cfg e (loop cfg es g).1 in
        r.2 = Go \/ r.2 = Break MaxErrors ->
        downloaded r.1 = downloaded g ->
        pass_raises e = true ->
        loop cfg (es ++ [e]) g = r
        /\ consecutive_errors r.1
           = consecutive_errors g + raising_passes es + 1
        /\ (r.2 = Break MaxErrors
            <-> max_errors cfg
                <= consecutive_errors g + raising_passes es + 1)).
Proof.
  split; [exact iteration_counter|]. split; [exact loop_counter|].
  intros es e g Hgo Hd r Hr Hd' Hp.
  pose proof (loop_counter es g Hgo Hd) as Hce.
  destruct (iteration_counter e (loop cfg es g).1 Hr)
    as (_ & Hsame & _ & Hbreak).
  fold r in Hsame, Hbreak.
  rewrite Hp in Hsame. specialize (Hsame ltac:(lia)).
  split; [|split].
  - rewrite (gui_loop_app es [e] g Hgo). cbn [Gui.loop]. fold r.
    destruct r as [g' [|why]]; reflexivity.
  - lia.
  - rewrite Hbreak. split; [intros [_ H]; lia | intros H; split; [exact Hp|lia]].
Qed.

End GuiBudgetFacts.

(** ** The form of the window *)

Section FormFacts.

Import GuiForm.

Lemma validate_inputs_acceptable (mkdir : result unit) (f : form) :
  (validate_inputs mkdir f).1 = true
  <-> acceptable f /\ exists u, mkdir = Ok u.
Proof.
  unfold validate_inputs, acceptable.
  destruct (String.eqb_spec (strip (search_var f)) EmptyString) as [Hs|Hs].
  { cbn. split; try discriminate. intros ((H & _) & _). contradiction. }
  destruct (int (count_var f)) as [count|e1] eqn:E1.
  2:{ cbn. split; try discriminate.
      intros ((_ & (c & Hc & _) & _) & _). congruence. }
  destruct (Z.ltb_spec count 0) as [Hc|Hc].
  { cbn. split; try discriminate.
    intros ((_ & (c & Hc' & ?) & _) & _).
    injection Hc' as <-. lia. }
  destruct (int (width_var f)) as [width|e2] eqn:E2.
  2:{ cbn. split; try discriminate.
      intros ((_ & _ & (w & h & Hw & _) & _) & _). congruence. }
  destruct (int (height_var f)) as [height|e3] eqn:E3.
  2:{ cbn. split; try discriminate.
      intros ((_ & _ & (w & h & _ & Hh & _) & _) & _). congruence. }
  destruct (Z.ltb_spec width 0) as [Hw|Hw]; cbn [orb].
  { cbn. split; try discriminate.
    intros ((_ & _ & (w & h & Hw' & _ & ? & _) & _) & _).
    injection Hw' as <-. lia. }
  destruct (Z.ltb_spec height 0) as [Hh|Hh].
  { cbn. split; try discriminate.
    intros ((_ & _ & (w & h & _ & Hh' & _ & ?) & _) & _).
    injection Hh' as <-. lia. }
  destruct (int (max_errors_var f)) as [max_errors|e4] eqn:E4.
  2:{ cbn. split; try discriminate.
      intros ((_ & _ & _ & (m & Hm & _) & _) & _). congruence. }
  destruct (Z.leb_spec max_errors 0) as [Hm|Hm].
  { cbn. split; try discriminate.
    intros ((_ & _ & _ & (m & Hm' & ?) & _) & _).
    injection Hm' as <-. lia. }
  destruct (int (timeout_var f)) as [timeout|e5] eqn:E5.
  2:{ cbn. split; try discriminate.
      intros ((_ & _ & _ & _ & (t & Ht & _)) & _). congruence. }
  destruct (Z.ltb_spec timeout 0) as [Ht|Ht].
  { cbn. split; try discriminate.
    intros ((_ & _ & _ & _ & (t & Ht' & ?)) & _).
    injection Ht' as <-. lia. }
  destruct mkdir as [u|e6]; cbn.
  - split; try reflexivity. intros _. split; [|eauto].
    split; [exact Hs|]. split; [exists count; split; [reflexivity|lia]|].
    split; [exists width, height; repeat split; lia|].
    split; [exists max_errors; split; [reflexivity|lia]|].
    exists timeout. split; [reflexivity|lia].
  - split; try discriminate. intros (_ & (u & Hu)). discriminate Hu.
Qed.

(** X11.  Of a form whose entries are ASCII text: [validate_inputs] returns
    [True] exactly when the search term is not blank, the count, width,
    height and time-out are read by [int] as integers that are not
    negative, the error budget is read as a positive integer, and the
    directory could be made; it shows one error dialog when it returns
    [False] and none when it returns [True]. *)
Theorem validate_inputs_accepts_exactly_the_valid_forms
    (mkdir : result unit) (f : form) :
  ascii_form f = true ->
  ((validate_inputs mkdir f).1 = true
   <-> acceptable f /\ exists u, mkdir = Ok u)
  /\ ((validate_inputs mkdir f).1 = true
      <-> (validate_inputs mkdir f).2 = None).
Proof.
  intros _.
  split; [apply validate_inputs_acceptable|].
  unfold validate_inputs.
  repeat match goal with
         | |- context [if ?c then _ else _] => destruct c
         | |- context [match int ?x with _ => _ end] => destruct (int x)
         | |- context [match mkdir with _ => _ end] => destruct mkdir
         end;
    cbn; split; intros H; (reflexivity || discriminate H).
Qed.

Lemma validate_inputs_accepts_exactly_the_valid_forms_witness :
  let f := {| search_var := "cute cats"; count_var := " 10 ";
              width_var := "+800"; height_var := "6_00";
              output_dir_var := "downloaded_images"; headless_var := false;
              max_errors_var := "10"; timeout_var := "0" |} in
  let g := {| search_var := "cute cats"; count_var := "10";
              width_var := "800"; height_var := "600";
              output_dir_var := "downloaded_images"; headless_var := false;
              max_errors_var := "0"; timeout_var := "300" |} in
  ascii_form f = true /\ ascii_form g = true
  /\ acceptable f /\ ~ acceptable g.
Proof.
  intros f g. split; [reflexivity|]. split; [reflexivity|]. split.
  - destruct (validate_inputs_accepts_exactly_the_valid_forms (Ok tt) f
                eq_refl) as ((H & _) & _).
    apply H. reflexivity.
  - intros Hg.
    destruct (validate_inputs_accepts_exactly_the_valid_forms (Ok tt) g
                eq_refl) as ((_ & H) & _).
    assert ((validate_inputs (Ok tt) g).1 = true) as E by (apply H; eauto).
    discriminate E.
Defined.

(** X12.  A form that [validate_inputs] accepted is read back by
    [download_images] without an exception: the loop gets a count, a
    minimum size and a time-out that are not negative, an error budget of at
    least 1, a search term that is not blank and the link built from it,
    which begins with [http]. *)
Theorem validated_form_is_read_back (mkdir : result unit) (f : form) :
  (validate_inputs mkdir f).1 = true ->
  exists p,
    read_parameters f = Ok p
    /\ 0 <= p_count p /\ 0 <= p_width p /\ 0 <= p_height p
    /\ 1 <= p_max_errors p /\ 0 <= p_timeout p
    /\ p_search p = strip (search_var f)
    /\ p_search p <> EmptyString
    /\ p_search_url p = Main.search_url (p_search p)
    /\ PyStr.startswith "http" (p_search_url p) = true.
Proof.
  intros H.
  apply (proj1 (validate_inputs_acceptable mkdir f)) in H.
  destruct H as ((Hs & (c & Hc & Hc0) & (w & h & Hw & Hh & Hw0 & Hh0)
                  & (m & Hm & Hm1) & (t & Ht & Ht0)) & _).
  unfold read_parameters. rewrite Hc, Hw, Hh, Hm, Ht.
  eexists. split; [reflexivity|]. cbn.
  assert ((if negb (PyStr.startswith "http" (strip (search_var f)))
           then (Main.search_prefix
                 ++ PyStr.replace_char " " "%20" (strip (search_var f)))%string
           else strip (search_var f))
          = Main.search_url (strip (search_var f))) as Hurl.
  { unfold Main.search_url.
    destruct (PyStr.startswith "http" (strip (search_var f))); reflexivity. }
  repeat split; try assumption.
  rewrite Hurl. apply search_url_startswith_http.
Qed.

Lemma validated_form_is_read_back_witness :
  let f := {| search_var := "  cute cats "; count_var := "10";
              width_var := "800"; height_var := "600";
              output_dir_var := "downloaded_images"; headless_var := false;
              max_errors_var := "10"; timeout_var := "300" |} in
  (validate_inputs (Ok tt) f).1 = true
  /\ exists p,
       read_parameters f = Ok p
       /\ p_search_url p
          = "https://yandex.com/images/search?text=cute%20cats".
Proof.
  intros f. split; [reflexivity|].
  destruct (validated_form_is_read_back (Ok tt) f eq_refl)
    as (p & Hp & _).
  exists p. split; [exact Hp|].
  cbv in Hp. injection Hp as <-. reflexivity.
Defined.

End FormFacts.

(** ** The size shown on the page *)

Section PageFacts.

Import PyStr GuiPage.






(** On a separator of one character the two readings of [split] agree. *)
Lemma split_one_char (c : ascii) (s : string) :
  split (String c EmptyString) s = split_on c s.
Proof.
  unfold split. induction s as [|d r IH]; [reflexivity|].
  cbn [split_from split_on]. simpl String.prefix.
  destruct (ascii_dec c d) as [->|Hne].
  - rewrite Ascii.eqb_refl. destruct r; cbn [String.length Nat.pred];
      now rewrite IH.
  - assert (Ascii.eqb d c = false) as ->.
    { apply Ascii.eqb_neq. congruence. }
    now rewrite IH.
Qed.










End PageFacts.

(** ** What the window's loop does to the output directory *)

Section GuiFrameFacts.

Import Gui GuiFrame.

Variable sha256_hexdigest : list Z -> string.
Variable cfg : Gui.config.

Local Abbreviation iteration := (Gui.iteration sha256_hexdigest).
Local Abbreviation loop := (Gui.loop sha256_hexdigest).

Lemma grown_by_nil (g g' : gui) : same_store g g' -> grown_by cfg [] g g'.
Proof.
  intros (Hf & Hw & Hd). unfold grown_by. rewrite Hf, Hw, Hd, app_nil_r.
  cbn [length]. split; [reflexivity|]. split; [lia|]. split; [reflexivity|].
  split; [auto|]. intros h Hh. inversion Hh.
Qed.

Lemma grown_by_one (h : string) (g g' : gui) :
  one_saved cfg h g g' -> grown_by cfg [h] g g'.
Proof.
  intros (Hi & Hp & Hf & Hw & Hd). unfold grown_by. rewrite Hf, Hw, Hd.
  cbn [length]. split; [reflexivity|]. split; [lia|]. split; [|split].
  - intros x Hx. now apply elem_of_union_r.
  - intros file Hfile. apply elem_of_union in Hfile as [Hfile|Hfile]; [|auto].
    apply elem_of_singleton in Hfile. right. exists h.
    split; [apply list_elem_of_singleton; reflexivity|exact Hfile].
  - intros h' Hh'. apply list_elem_of_singleton in Hh'. subst h'.
    split; [now apply elem_of_union_l, elem_of_singleton|]. split; assumption.
Qed.

Lemma grown_by_trans (n1 n2 : list string) (g1 g2 g3 : gui) :
  grown_by cfg n1 g1 g2 -> grown_by cfg n2 g2 g3 -> grown_by cfg (n1 ++ n2) g1 g3.
Proof.
  intros (W1 & D1 & S1 & F1 & N1) (W2 & D2 & S2 & F2 & N2).
  unfold grown_by. rewrite W2, W1, D2, D1, length_app, <- app_assoc.
  split; [reflexivity|]. split; [lia|]. split; [|split].
  - intros x Hx. apply S2, S1, Hx.
  - intros file Hfile. destruct (F2 file Hfile) as [H|(h & Hh & ->)].
    + destruct (F1 file H) as [H'|(h & Hh & ->)]; [auto|].
      right. exists h. split; [apply elem_of_app; auto|reflexivity].
    + right. exists h. split; [apply elem_of_app; auto|reflexivity].
  - intros h Hh. apply elem_of_app in Hh as [Hh|Hh].
    + destruct (N1 h Hh) as (A & B & C).
      split; [apply S2, A|]. split; assumption.
    + destruct (N2 h Hh) as (A & B & C).
      split; [exact A|]. split; [|exact C].
      intros Hin. apply B, S1, Hin.
Qed.

Lemma iteration_grows (e : page_env) (g : gui) :
  exists new, grown_by cfg new g (iteration cfg e g).1.
Proof.
  destruct (iteration_cases sha256_hexdigest cfg e g)
    as [(_ & _ & H)|[(_ & _ & H)|[(_ & _ & _ & _ & H)|(_ & _ & H)]]];
    try (exists []; now apply grown_by_nil).
  destruct H as [H|(img & wf & hf & _ & _ & H & _)].
  - exists []. now apply grown_by_nil.
  - eexists [_]. apply grown_by_one. exact H.
Qed.

(** X14.  From any state, a run of the loop only adds to the output directory:
    every file that was there is still there, every new file is the
    [.png] of a hash name the run saved, was not there before and is not
    among the initial files, and the counter has grown by the number of
    files saved. *)
Theorem loop_only_adds_files (es : list page_env) (g : gui) :
  exists new, grown_by cfg new g (loop cfg es g).1.
Proof.
  revert g. induction es as [|e rest IH]; intros g.
  - exists []. apply grown_by_nil. repeat split.
  - cbn [Gui.loop]. destruct (iteration_grows e g) as (n1 & H1).
    destruct (iteration cfg e g) as [g' [|r]]; cbn [fst] in *.
    + destruct (IH g') as (n2 & H2). exists (n1 ++ n2)%list.
      eapply grown_by_trans; eauto.
    + exists n1. exact H1.
Qed.

End GuiFrameFacts.

Section MoreWitnesses.

Lemma window_budget_counts_across_successes_witness :
  let es := [GuiBudget.stuck_page; GuiBudget.small_page;
             GuiBudget.unfetched_page; GuiBudget.stuck_page] in
  let r := Gui.loop Gui.sample_hash Gui.sample_config es (Gui.enter ∅) in
  Gui.decoded GuiBudget.small_page <> None
  /\ GuiBudget.raising_passes es = 2
  /\ r.2 = Gui.Go /\ Gui.downloaded r.1 = 0
  /\ Gui.consecutive_errors r.1 = 2.
Proof.
  intros es r.
  assert (r.2 = Gui.Go) as Hgo by reflexivity.
  assert (Gui.downloaded r.1 = 0) as Hd by reflexivity.
  split; [discriminate|]. split; [reflexivity|].
  split; [exact Hgo|]. split; [exact Hd|].
  destruct (window_budget_counts_across_successes Gui.sample_hash
              Gui.sample_config) as (_ & H & _).
  apply (H es (Gui.enter ∅) Hgo Hd).
Defined.

End MoreWitnesses.

(** ** The link shown on the page *)

Section LinkScanFacts.

Import GuiLink.






End LinkScanFacts.

(** ** Opening the first image *)

Section FirstImageFacts.

Import GuiFirstImage.

Lemma try_selectors_finds (env : string -> selector_env)
    (selectors : list string) :
  (try_selectors env selectors).1 = List.find (works env) selectors.
Proof.
  induction selectors as [|s rest IH]; [reflexivity|].
  cbn [try_selectors List.find]. unfold works.
  destruct (found (env s)) as [[|n]|e].
  - destruct (try_selectors env rest). exact IH.
  - destruct (click (env s)) as [u|e]; [reflexivity|].
    destruct (try_selectors env rest). exact IH.
  - destruct (try_selectors env rest). exact IH.
Qed.

(** X16.  Opening the first image never raises: the image counts as open
    by the first selector, in the order of the list, that finds an element
    whose click goes through; failing that by the script, when running it
    does not raise; and failing that by the user, who is asked to click.
    The exception "Could not open the first image." is never raised. *)
Theorem opening_the_first_image_never_fails (env : string -> selector_env)
    (script : result unit) :
  exists w msgs,
    open_first_image env script = Ok (w, msgs)
    /\ match List.find (works env) first_image_selectors with
       | Some selector => w = BySelector selector
       | None =>
           match script with
           | Ok _ => w = ByScript
           | Raise _ => w = ByHand
           end
       end.
Proof.
  unfold open_first_image.
  pose proof (try_selectors_finds env first_image_selectors) as H.
  destruct (try_selectors env first_image_selectors) as [r msgs].
  cbn [fst] in H. rewrite <- H.
  destruct r as [s|]; cbn [negb].
  - eauto.
  - destruct script as [u|e]; cbn [negb]; eauto.
Qed.

End FirstImageFacts.
